(** * StarBot_Sorting: reading-order sort and grid alignment of OCR features

    A shallow embedding of [sorting_algs.py]: the [Feature] dataclass, the
    reading-order sort [sort_features_A], the grid alignment
    [sort_features_B] and the two fixtures [times_1] and [numbers_1],
    followed by the properties of the two algorithms. *)

From Stdlib Require Import ZArith String SpecFloat Sorted.
From stdpp Require Import base list sorting gmap.

Open Scope Z_scope.

(** ** Exceptions

    The only exceptions the two functions can raise come from
    [sort_features_B]: the true division [/], the conversions of an [int]
    operand to [float], and a list repetition [[v] * n] whose count does not
    fit the index type.  Memory exhaustion is outside the model. *)

Inductive exn := ZeroDivisionError | OverflowError.

Inductive result (A : Type) :=
| Ok (a : A)
| Raise (e : exn).
Arguments Ok {A} a.
Arguments Raise {A} e.

#[global] Instance result_ret : MRet result := fun A a => Ok a.
#[global] Instance result_bind : MBind result := fun A B k r =>
  match r with
  | Ok a => k a
  | Raise e => Raise e
  end.

(** The statements of a [for] loop whose body may raise, run in order over
    the items. *)
Fixpoint for_each {A B} (body : A -> result B) (items : list A) : result (list B) :=
  match items with
  | [] => Ok []
  | a :: items' =>
      b ← body a;
      bs ← for_each body items';
      Ok (b :: bs)
  end.

(** ** Python numbers

    [int] is [Z].  [float] is IEEE 754 binary64, as the specification of
    floating-point numbers of the standard library has it. *)

Module PyFloat.

Definition prec : Z := 53.
Definition emax : Z := 1024.

Definition float := spec_float.

(** The least magnitude that rounds (to nearest, ties to even) to 2^1024:
    half an ulp below it. *)
Definition overflow_threshold : Z := 2 ^ 1024 - 2 ^ 970.

(** An [int] as an exact, not normalised, binary float. *)
Definition exact (n : Z) : float :=
  match n with
  | Z0 => S754_zero false
  | Zpos p => S754_finite false p 0
  | Zneg p => S754_finite true p 0
  end.

(** [float(n)] for an [int] operand of a mixed operation: the nearest
    double, [OverflowError] when that is out of range. *)
Definition of_int (n : Z) : result float :=
  if overflow_threshold <=? Z.abs n then Raise OverflowError
  else Ok (binary_normalize prec emax n 0 false).

(** [a / b] on two [int]s: the quotient rounded once to the nearest
    double; [ZeroDivisionError] for [b = 0], [OverflowError] when the
    rounded quotient is out of range. *)
Definition true_div (a b : Z) : result float :=
  if b =? 0 then Raise ZeroDivisionError
  else if overflow_threshold * Z.abs b <=? Z.abs a then Raise OverflowError
  else Ok (SFdiv prec emax (exact a) (exact b)).

(** [i * f], [n + f] and [n - f] with an [int] on the left and a [float]
    on the right: the [int] is converted, the float operation cannot
    raise. *)
Definition int_mul (i : Z) (f : float) : result float :=
  fi ← of_int i; Ok (SFmul prec emax fi f).

Definition int_add (n : Z) (f : float) : result float :=
  fn ← of_int n; Ok (SFadd prec emax fn f).

Definition int_sub (n : Z) (f : float) : result float :=
  fn ← of_int n; Ok (SFsub prec emax fn f).

Definition abs (f : float) : float := SFabs f.

(** [f <= n] for a [float] and an [int]: Python compares the two exactly. *)
Definition le_int (f : float) (n : Z) : bool :=
  match f with
  | S754_nan => false
  | S754_infinity s => s
  | S754_zero _ => 0 <=? n
  | S754_finite s m e =>
      let v := if s then Zneg m else Zpos m in
      if 0 <=? e then v * 2 ^ e <=? n else v <=? n * 2 ^ (- e)
  end.

End PyFloat.

(** An expected column position is an [int] (single-feature row) or a
    [float] (interpolated). *)
Inductive num :=
| NInt (n : Z)
| NFloat (f : PyFloat.float).

(** ** The Feature dataclass

    [ident] is the identity [id(f)] of the object; the three other fields are
    the dataclass fields. *)

Record Feature := mkFeature {
  ident : positive;
  text : string;
  x : Z;
  y : Z
}.

#[global] Instance Feature_eq_dec : EqDecision Feature.
Proof. solve_decision. Defined.

(** ** [sorted(l, key=..., reverse=...)]

    Python's sort is stable, also with [reverse=True]: elements with equal
    keys keep their relative order. *)

Definition key_le (reverse : bool) (ka kb : Z) : bool :=
  if reverse then kb <=? ka else ka <=? kb.

Fixpoint sorted_insert (key : Feature -> Z) (reverse : bool)
    (a : Feature) (l : list Feature) : list Feature :=
  match l with
  | [] => [a]
  | b :: l' =>
      if key_le reverse (key a) (key b) then a :: b :: l'
      else b :: sorted_insert key reverse a l'
  end.

Definition sorted (l : list Feature) (key : Feature -> Z) (reverse : bool)
    : list Feature :=
  foldr (sorted_insert key reverse) [] l.

(** ** Row clustering: the loop shared by both functions *)

Record cluster_state := mkState {
  rows : list (list Feature);
  current_row : list Feature;
  current_y : option Z
}.

Definition cluster_init : cluster_state :=
  {| rows := []; current_row := []; current_y := None |}.

(** Body of the loop of [sort_features_A] (lines 27-38). *)
Definition cluster_step_A (tol : Z) (st : cluster_state) (f : Feature)
    : cluster_state :=
  match current_y st with
  | None =>
      {| rows := rows st;
         current_row := current_row st ++ [f];
         current_y := Some (y f) |}
  | Some cy =>
      if Z.abs (y f - cy) <=? tol then
        {| rows := rows st;
           current_row := current_row st ++ [f];
           current_y := Some cy |}
      else
        {| rows := rows st ++ [sorted (current_row st) x false];
           current_row := [f];
           current_y := Some (y f) |}
  end.

(** The [if current_row:] after the loop (lines 40-42). *)
Definition finish_A (st : cluster_state) : list (list Feature) :=
  match current_row st with
  | [] => rows st
  | _ :: _ => rows st ++ [sorted (current_row st) x false]
  end.

(** The rows of [sort_features_A]: the row-clustering primitive. *)
Definition rows_A (features : list Feature) (tol : Z) : list (list Feature) :=
  let features_sorted := sorted features y true in
  finish_A (foldl (cluster_step_A tol) cluster_init features_sorted).

Definition sort_features_A (features : list Feature) (tol : Z) : list Feature :=
  concat (rows_A features tol).

(** Body of the loop of [sort_features_B] (lines 69-77). *)
Definition cluster_step_B (tol_y : Z) (st : cluster_state) (f : Feature)
    : cluster_state :=
  match current_y st with
  | None =>
      {| rows := rows st;
         current_row := current_row st ++ [f];
         current_y := Some (y f) |}
  | Some cy =>
      if Z.abs (y f - cy) <=? tol_y then
        {| rows := rows st;
           current_row := current_row st ++ [f];
           current_y := Some cy |}
      else
        {| rows := rows st ++ [current_row st];
           current_row := [f];
           current_y := Some (y f) |}
  end.

(** The [if current_row:] after the loop (lines 78-79). *)
Definition finish_B (st : cluster_state) : list (list Feature) :=
  match current_row st with
  | [] => rows st
  | _ :: _ => rows st ++ [current_row st]
  end.

(** Steps 1 and 2 of [sort_features_B]: the rows before they are sorted by
    [x]. *)
Definition rows_B (features : list Feature) (tol_y : Z) : list (list Feature) :=
  let features_sorted := sorted features y true in
  finish_B (foldl (cluster_step_B tol_y) cluster_init features_sorted).

(** ** Grid alignment *)

(** The slice [l[:n]]: a negative [n] counts from the end. *)
Definition slice_to {A} (l : list A) (n : Z) : list A :=
  let stop := if n <? 0 then Z.max 0 (Z.of_nat (length l) + n) else n in
  take (Z.to_nat stop) l.

(** Step 3: trim to [expected_rows] rows or add empty rows. *)
Definition fit_rows (rows : list (list Feature)) (expected_rows : Z)
    : list (list Feature) :=
  let n := Z.of_nat (length rows) in
  if expected_rows <? n then slice_to rows expected_rows
  else if n <? expected_rows then
    rows ++ replicate (Z.to_nat (expected_rows - n)) []
  else rows.

(** [range(n)]. *)
Definition range (n : Z) : list Z := seqZ 0 n.

(** The values of the index type of CPython ([Py_ssize_t], 64 bits). *)
Definition index_min : Z := - 2 ^ 63.
Definition index_max : Z := 2 ^ 63 - 1.

(** [[v] * n]: [n] copies of [v], none for a negative [n]; a count that does
    not fit the index type raises [OverflowError]. *)
Definition list_repeat {A} (v : A) (n : Z) : result (list A) :=
  if (n <? index_min) || (index_max <? n) then Raise OverflowError
  else Ok (replicate (Z.to_nat n) v).

(** The expected x position of every column of one row (lines 93-103);
    [None] for an empty row. *)
Definition expected_positions (row_sorted : list Feature) (expected_cols : Z)
    : result (list (option num)) :=
  match row_sorted with
  | [] => list_repeat None expected_cols
  | first :: _ =>
      let min_x := x first in
      let max_x := x (List.last row_sorted first) in
      if (length row_sorted =? 1)%nat then
        list_repeat (Some (NInt min_x)) expected_cols
      else
        step ← PyFloat.true_div (max_x - min_x) (expected_cols - 1);
        for_each (fun i =>
                    p ← PyFloat.int_mul i step;
                    e ← PyFloat.int_add min_x p;
                    Ok (Some (NFloat e)))
                 (range expected_cols)
  end.

(** [abs(f.x - exp_x) <= tol_x]. *)
Definition within_tol (fx : Z) (exp_x : num) (tol_x : Z) : result bool :=
  match exp_x with
  | NInt e => Ok (Z.abs (fx - e) <=? tol_x)
  | NFloat e =>
      d ← PyFloat.int_sub fx e;
      Ok (PyFloat.le_int (PyFloat.abs d) tol_x)
  end.

(** The inner loop (lines 111-117): the first feature of the row that is not
    used yet and lies within [tol_x] of the expected position. *)
Fixpoint find_feature (used : gset positive) (exp_x : num) (tol_x : Z)
    (row_sorted : list Feature) : result (option Feature) :=
  match row_sorted with
  | [] => Ok None
  | f :: rest =>
      if decide (ident f ∈ used) then find_feature used exp_x tol_x rest
      else
        close ← within_tol (x f) exp_x tol_x;
        if close : bool then Ok (Some f)
        else find_feature used exp_x tol_x rest
  end.

(** The loop over the expected positions (lines 108-118), threading the set
    [used] of identities. *)
Fixpoint fill_columns (used : gset positive) (positions : list (option num))
    (tol_x : Z) (row_sorted : list Feature) : result (list (option Feature)) :=
  match positions with
  | [] => Ok []
  | exp_x :: positions' =>
      found ← match exp_x with
              | None => Ok None
              | Some e => find_feature used e tol_x row_sorted
              end;
      let used' := match found with
                   | Some f => {[ident f]} ∪ used
                   | None => used
                   end in
      new_row ← fill_columns used' positions' tol_x row_sorted;
      Ok (found :: new_row)
  end.

(** The [while] loop of lines 120-121. *)
Definition pad_row (new_row : list (option Feature)) (expected_cols : Z)
    : list (option Feature) :=
  new_row ++
  replicate (Z.to_nat (expected_cols - Z.of_nat (length new_row))) None.

(** Step 4 for one row. *)
Definition align_row (expected_cols tol_x : Z) (row : list Feature)
    : result (list (option Feature)) :=
  let row_sorted := sorted row x false in
  positions ← expected_positions row_sorted expected_cols;
  new_row ← fill_columns ∅ positions tol_x row_sorted;
  Ok (pad_row new_row expected_cols).

Definition sort_features_B (features : list Feature)
    (expected_rows expected_cols tol_y tol_x : Z)
    : result (list (option Feature)) :=
  let rows := fit_rows (rows_B features tol_y) expected_rows in
  grid ← for_each (align_row expected_cols tol_x) rows;
  Ok (concat grid).

(** Default arguments. *)
Definition default_tol : Z := 100.
Definition default_expected_rows : Z := 3.
Definition default_expected_cols : Z := 4.
Definition default_tol_y : Z := 100.
Definition default_tol_x : Z := 20.

(** ** Fixtures

    Each literal builds a fresh object: the identities are pairwise
    distinct. *)

Definition times_1 : list Feature :=
  [ mkFeature 1 "10:47 PM" 331 3808;
    mkFeature 2 "10:13 PM" 306 2788;
    mkFeature 3 "10:29 PM" 1734 3816;
    mkFeature 4 "10:08 PM" 1718 2780;
    mkFeature 5 "9:51 PM" 290 1759;
    mkFeature 6 "9:48 PM" 1710 1743;
    mkFeature 7 "10:26 PM" 3171 3818;
    mkFeature 8 "10:02 PM" 3163 2772;
    mkFeature 9 "9:46 PM" 3154 1733;
    mkFeature 10 "10:23 PM" 4599 3793;
    mkFeature 11 "10:01 PM" 4615 2762;
    mkFeature 12 "9:43 PM" 4607 1725 ].

Definition numbers_1 : list Feature :=
  [ mkFeature 1 "1" 132 3736;
    mkFeature 2 "5" 107 2723;
    mkFeature 3 "2" 1519 3744;
    mkFeature 4 "6" 1511 2714;
    mkFeature 5 "9" 83 1685;
    mkFeature 6 "10" 1494 1668;
    mkFeature 7 "3" 2963 3752;
    mkFeature 8 "7" 2947 2698;
    mkFeature 9 "11" 2939 1668;
    mkFeature 10 "8" 4400 2698;
    mkFeature 11 "12" 4400 1643 ].

(** ** Predicates used in the statements *)

(** [a] may stand before [b] in the output of [sorted]. *)
Definition ordered (key : Feature -> Z) (reverse : bool) (a b : Feature) : Prop :=
  key_le reverse (key a) (key b) = true.

(** The state of [sort_features_A] is the state of [sort_features_B] with
    every closed row sorted by [x]. *)
Definition close_rows (st : cluster_state) : cluster_state :=
  {| rows := map (fun r => sorted r x false) (rows st);
     current_row := current_row st;
     current_y := current_y st |}.

(** Row [r] lies above row [r']: every feature of [r'] is strictly lower than
    every feature of [r], and further than [tol] below the first one. *)
Definition row_above (tol : Z) (r r' : list Feature) : Prop :=
  (forall a b, a ∈ r -> b ∈ r' -> y b < y a) /\
  (forall a b, head r = Some a -> b ∈ r' -> y b < y a - tol).

(** The first feature of a row is its anchor: the highest of the row, and
    every other one is at most [tol] below it. *)
Definition row_anchored (tol : Z) (r : list Feature) : Prop :=
  exists a, head r = Some a /\ forall b, b ∈ r -> y a - tol <= y b <= y a.

(** Invariant of the clustering loop of [sort_features_B]. *)
Definition cluster_inv (tol : Z) (st : cluster_state) : Prop :=
  StronglySorted (row_above tol) (rows st ++ [current_row st]) /\
  Forall (row_anchored tol) (rows st) /\
  match current_y st with
  | None => rows st = [] /\ current_row st = []
  | Some cy =>
      exists a, head (current_row st) = Some a /\ y a = cy /\
                forall b, b ∈ current_row st -> cy - tol <= y b <= cy
  end.

(** Objects with the same identity are the same object. *)
Definition ident_consistent (l : list Feature) : Prop :=
  forall a b, a ∈ l -> b ∈ l -> ident a = ident b -> a = b.

(** The features of two different rows are different objects. *)
Definition rows_apart (r r' : list Feature) : Prop :=
  forall a b, a ∈ r -> b ∈ r' -> ident a <> ident b.

(** The features that occupy a cell. *)
Definition present (cells : list (option Feature)) : list Feature :=
  omap (fun c => c) cells.

(** [n] fits the index type. *)
Definition in_index_range (n : Z) : Prop := index_min <= n <= index_max.

(** Every coordinate converts to a double, and so does the width of a row. *)
Definition coords_in_range (l : list Feature) : Prop :=
  forall f, f ∈ l -> 2 * Z.abs (x f) < PyFloat.overflow_threshold.

(** Two lists of features with the same [y], position by position. *)
Definition same_ys (l l' : list Feature) : Prop := y <$> l = y <$> l'.

(** Two states of the clustering loop that differ only by which features sit
    at the positions. *)
Definition same_shape (st st' : cluster_state) : Prop :=
  Forall2 same_ys (rows st) (rows st') /\
  same_ys (current_row st) (current_row st') /\
  current_y st = current_y st'.

(** [f] lies in the band of height [tol] below the level [top]. *)
Definition in_band (top tol : Z) (f : Feature) : Prop :=
  top - tol <= y f <= top.

(** ** Small inputs used in the examples *)

(** Three features 90 apart, the outer two 180 apart. *)
Definition chain_0_90_180 : list Feature :=
  [ mkFeature 1 "a" 0 0; mkFeature 2 "b" 10 90; mkFeature 3 "c" 20 180 ].

(** Two features 150 apart. *)
Definition pair_0_150 : list Feature :=
  [ mkFeature 1 "a" 0 0; mkFeature 2 "b" 10 150 ].

(** The last two are 60 apart, but 110 and 50 below the first. *)
Definition chain_200_150_90 : list Feature :=
  [ mkFeature 1 "a" 0 200; mkFeature 2 "b" 10 150; mkFeature 3 "c" 20 90 ].

(** Two features of one row. *)
Definition two_in_a_row : list Feature :=
  [ mkFeature 1 "a" 0 0; mkFeature 2 "b" 10 0 ].

(** * Properties *)

(** ** Sanity checks of the number model *)

Example true_div_1_3 :
  PyFloat.true_div 1 3 = Ok (S754_finite false 6004799503160661 (-54)).
Proof. reflexivity. Qed.

Example true_div_zero_neg : PyFloat.true_div 0 (-3) = Ok (S754_zero true).
Proof. reflexivity. Qed.

(** Just below the threshold the conversion is the largest double, at the
    threshold rounding reaches 2^1024. *)
Example of_int_below_threshold :
  PyFloat.of_int (PyFloat.overflow_threshold - 1)
  = Ok (S754_finite false (2 ^ 53 - 1) 971).
Proof. vm_compute. reflexivity. Qed.

Example round_at_threshold :
  binary_normalize PyFloat.prec PyFloat.emax PyFloat.overflow_threshold 0 false
  = S754_infinity false.
Proof. vm_compute. reflexivity. Qed.

Example div_round_at_threshold :
  SFdiv PyFloat.prec PyFloat.emax
    (PyFloat.exact (3 * PyFloat.overflow_threshold)) (PyFloat.exact 3)
  = S754_infinity false
  /\ PyFloat.true_div (3 * PyFloat.overflow_threshold - 1) 3
     = Ok (S754_finite false (2 ^ 53 - 1) 971).
Proof. split; vm_compute; reflexivity. Qed.

Example list_repeat_examples :
  list_repeat 7 3 = Ok [7; 7; 7]
  /\ list_repeat 7 (-2) = Ok []
  /\ list_repeat 7 index_min = Ok []
  /\ list_repeat 7 (index_min - 1) = Raise OverflowError
  /\ list_repeat 7 (index_max + 1) = Raise OverflowError.
Proof. repeat split. Qed.

Example le_int_examples :
  PyFloat.le_int (S754_finite false 3 (-1)) 1 = false
  /\ PyFloat.le_int (S754_finite false 3 (-1)) 2 = true
  /\ PyFloat.le_int (S754_finite true 3 4) (-48) = true
  /\ PyFloat.le_int (S754_finite true 3 4) (-49) = false.
Proof. repeat split. Qed.

(** ** Properties of [sorted] *)

Section Sorted.
Variable key : Feature -> Z.
Variable reverse : bool.

#[local] Abbreviation ord := (ordered key reverse).

Lemma ordered_total a b : ord a b \/ ord b a.
Proof. unfold ordered, key_le. destruct reverse; lia. Qed.

Lemma ordered_trans a b c : ord a b -> ord b c -> ord a c.
Proof. unfold ordered, key_le. destruct reverse; lia. Qed.

Lemma sorted_insert_perm a l : sorted_insert key reverse a l ≡ₚ a :: l.
Proof.
  induction l as [|b l IH]; simpl; [done|].
  destruct (key_le _ _ _); [done|].
  rewrite IH. apply Permutation_swap.
Qed.

Lemma sorted_perm l : sorted l key reverse ≡ₚ l.
Proof.
  induction l as [|a l IH]; simpl; [done|].
  rewrite sorted_insert_perm. by rewrite IH.
Qed.

Lemma sorted_length l : length (sorted l key reverse) = length l.
Proof. by rewrite sorted_perm. Qed.

Lemma sorted_elem_of a l : a ∈ sorted l key reverse <-> a ∈ l.
Proof. by rewrite sorted_perm. Qed.

Lemma sorted_nil_inv l : sorted l key reverse = [] -> l = [].
Proof.
  intros H. apply Permutation_nil_r. rewrite <- H. by rewrite sorted_perm.
Qed.

Lemma sorted_insert_ordered a l :
  StronglySorted ord l ->
  StronglySorted ord (sorted_insert key reverse a l).
Proof.
  induction l as [|b l IH]; simpl; intros Hs.
  - by repeat constructor.
  - apply StronglySorted_inv in Hs as [Hl Hb].
    destruct (key_le reverse (key a) (key b)) eqn:E.
    + constructor; [by constructor|].
      constructor; [done|].
      eapply Forall_impl; [exact Hb|].
      intros c Hc. by apply ordered_trans with b.
    + constructor; [by apply IH|].
      rewrite sorted_insert_perm. constructor; [|done].
      destruct (ordered_total a b) as [H|H]; [|done].
      unfold ordered in H. congruence.
Qed.

Lemma sorted_ordered l : StronglySorted ord (sorted l key reverse).
Proof.
  induction l as [|a l IH]; simpl; [constructor|].
  by apply sorted_insert_ordered.
Qed.

(** Stability: the features of one key keep their input order. *)
Lemma sorted_insert_stable k a l :
  filter (fun f => key f = k) (sorted_insert key reverse a l)
  = filter (fun f => key f = k) (a :: l).
Proof.
  induction l as [|b l IH]; simpl; [done|].
  destruct (key_le reverse (key a) (key b)) eqn:E; [done|].
  rewrite (filter_cons _ b), IH, !filter_cons.
  repeat case_decide; try done.
  unfold key_le in E. destruct reverse; lia.
Qed.

Lemma sorted_stable k l :
  filter (fun f => key f = k) (sorted l key reverse)
  = filter (fun f => key f = k) l.
Proof.
  induction l as [|a l IH]; simpl; [done|].
  rewrite sorted_insert_stable, !filter_cons. by rewrite IH.
Qed.

End Sorted.

(** ** The clustering loop *)

Lemma elem_of_concat {A} (a : A) (ls : list (list A)) :
  a ∈ concat ls <-> exists l, l ∈ ls /\ a ∈ l.
Proof.
  induction ls as [|l ls IH]; simpl.
  - split; [intros H | intros (l & H & _)]; by apply elem_of_nil in H.
  - rewrite elem_of_app, IH. split.
    + intros [H | (l' & H1 & H2)].
      * exists l. split; [left | done].
      * exists l'. split; [by right | done].
    + intros (l' & H1 & H2).
      apply elem_of_cons in H1 as [-> | H1]; [by left | right; eauto].
Qed.

Ltac step_cases st :=
  unfold cluster_step_A, cluster_step_B;
  destruct (current_y st) as [?cy|] eqn:?Hcy;
  [destruct (Z.abs _ <=? _) eqn:?Htol|]; simpl.

(** The loop of [sort_features_A] runs in lockstep with the loop of
    [sort_features_B]; only the closed rows differ, by their order. *)
Lemma foldl_cluster_A_B tol l st :
  foldl (cluster_step_A tol) (close_rows st) l
  = close_rows (foldl (cluster_step_B tol) st l).
Proof.
  revert st. induction l as [|f l IH]; intros st; simpl; [done|].
  rewrite <- IH. f_equal. unfold close_rows.
  step_cases st; rewrite ?Hcy, ?Htol; simpl; try done.
  by rewrite map_app.
Qed.

Lemma rows_A_B fs tol :
  rows_A fs tol = map (fun r => sorted r x false) (rows_B fs tol).
Proof.
  unfold rows_A, rows_B.
  change cluster_init with (close_rows cluster_init).
  rewrite foldl_cluster_A_B. unfold finish_A, finish_B. simpl.
  destruct (current_row _); [done|]. by rewrite map_app.
Qed.

(** The rows and the open row, one after the other, are the features seen so
    far in the order they were seen. *)
Lemma foldl_cluster_B_concat tol l st :
  concat (rows (foldl (cluster_step_B tol) st l))
    ++ current_row (foldl (cluster_step_B tol) st l)
  = concat (rows st) ++ current_row st ++ l.
Proof.
  revert st. induction l as [|f l IH]; intros st; simpl.
  - by rewrite app_nil_r.
  - rewrite IH. step_cases st; rewrite ?concat_app; simpl;
      by rewrite ?app_nil_r, <- ?app_assoc.
Qed.

Lemma rows_B_concat fs tol : concat (rows_B fs tol) = sorted fs y true.
Proof.
  unfold rows_B, finish_B.
  pose proof (foldl_cluster_B_concat tol (sorted fs y true) cluster_init) as H.
  simpl in H. destruct (current_row _).
  - by rewrite app_nil_r in H.
  - rewrite concat_app. simpl. by rewrite app_nil_r.
Qed.

Lemma foldl_cluster_B_nonempty tol l st :
  Forall (fun r => r <> []) (rows st) ->
  (current_y st <> None -> current_row st <> []) ->
  Forall (fun r => r <> []) (rows (foldl (cluster_step_B tol) st l)).
Proof.
  revert st. induction l as [|f l IH]; intros st Hrows Hcur; simpl; [done|].
  apply IH; step_cases st; try done.
  - apply Forall_app. split; [done|]. constructor; [|done]. by apply Hcur.
  - intros _. by destruct (current_row st).
  - intros _. by destruct (current_row st).
Qed.

Lemma rows_B_nonempty fs tol : Forall (fun r => r <> []) (rows_B fs tol).
Proof.
  unfold rows_B, finish_B.
  set (st := foldl _ _ _).
  assert (Forall (fun r => r <> []) (rows st)) as H
    by (apply foldl_cluster_B_nonempty; simpl; [constructor | done]).
  destruct (current_row st) eqn:E; [done|].
  apply Forall_app. split; [done|]. by repeat constructor.
Qed.

Lemma rows_B_elem_of fs tol r a : r ∈ rows_B fs tol -> a ∈ r -> a ∈ fs.
Proof.
  intros Hr Ha. rewrite <- (sorted_elem_of y true), <- (rows_B_concat fs tol).
  apply elem_of_concat. eauto.
Qed.

Lemma concat_map_perm {A} (g : list A -> list A) (ls : list (list A)) :
  (forall l, g l ≡ₚ l) -> concat (map g ls) ≡ₚ concat ls.
Proof.
  intros Hg. induction ls as [|l ls IH]; simpl; [done|].
  by rewrite Hg, IH.
Qed.

(** When the tolerance is not negative, one step of the loop keeps the rows
    apart in [y] and every row within [tol] below its anchor. *)
Lemma cluster_step_B_inv tol st f :
  0 <= tol ->
  (forall cy, current_y st = Some cy -> y f <= cy) ->
  cluster_inv tol st ->
  cluster_inv tol (cluster_step_B tol st f).
Proof.
  intros Hpos Hle (Hss & Hanch & Hcur). unfold cluster_inv.
  apply StronglySorted_app in Hss as (Habove & Hrows & _).
  step_cases st.
  - (* the feature joins the open row *)
    destruct Hcur as (a0 & Hhead & Ha0 & Hin).
    specialize (Hle _ eq_refl).
    assert (a0 ∈ current_row st) as Ha0in by by apply head_Some_elem_of.
    split; [|split; [done|]].
    + apply StronglySorted_app_2; [|done|by repeat constructor].
      intros r r' Hr ->%list_elem_of_singleton.
      destruct (Habove r (current_row st) Hr) as [H1 H2]; [by left|].
      split; intros a b Ha [Hb | ->%list_elem_of_singleton]%elem_of_app;
        eauto; [specialize (H1 a a0 Ha Ha0in) | specialize (H2 a a0 Ha Ha0in)];
        lia.
    + exists a0. split; [|split; [done|]].
      * destruct (current_row st); simplify_eq/=; done.
      * intros b [Hb | ->%list_elem_of_singleton]%elem_of_app; [eauto|].
        apply Z.leb_le in Htol. lia.
  - (* the open row is closed and the feature opens a new one *)
    destruct Hcur as (a0 & Hhead & Ha0 & Hin).
    specialize (Hle _ eq_refl). apply Z.leb_gt in Htol.
    assert (a0 ∈ current_row st) as Ha0in by by apply head_Some_elem_of.
    split; [|split].
    + apply StronglySorted_app_2; [| |by repeat constructor].
      * intros r r' [Hr | ->%list_elem_of_singleton]%elem_of_app
          ->%list_elem_of_singleton.
        -- destruct (Habove r (current_row st) Hr) as [H1 H2]; [by left|].
           split; intros a b Ha ->%list_elem_of_singleton;
             [specialize (H1 a a0 Ha Ha0in) | specialize (H2 a a0 Ha Ha0in)];
             lia.
        -- split; intros a b Ha ->%list_elem_of_singleton.
           ++ specialize (Hin a Ha). lia.
           ++ rewrite Hhead in Ha. simplify_eq. lia.
      * apply StronglySorted_app_2; [done..|by repeat constructor].
    + apply Forall_app. split; [done|]. constructor; [|done].
      exists a0. split; [done|]. intros b Hb. specialize (Hin b Hb). lia.
    + exists f. split; [done|]. split; [done|].
      intros b ->%list_elem_of_singleton. lia.
  - (* the first feature *)
    destruct Hcur as [-> ->]. simpl. split; [|split; [done|]].
    + by repeat constructor.
    + exists f. split; [done|]. split; [done|].
      intros b ->%list_elem_of_singleton. lia.
Qed.

Lemma foldl_cluster_B_inv tol l st :
  0 <= tol ->
  StronglySorted (ordered y true) l ->
  (forall cy f, current_y st = Some cy -> f ∈ l -> y f <= cy) ->
  cluster_inv tol st ->
  cluster_inv tol (foldl (cluster_step_B tol) st l).
Proof.
  intros Hpos. revert st.
  induction l as [|f l IH]; intros st Hsorted Hle Hinv; simpl; [done|].
  apply StronglySorted_inv in Hsorted as [Hl Hf].
  apply IH; [done| |].
  - intros cy' g Hcy' Hg.
    assert (y g <= y f) as Hgf.
    { rewrite Forall_forall in Hf. specialize (Hf g Hg).
      unfold ordered, key_le in Hf. lia. }
    revert Hcy'. step_cases st; intros; simplify_eq; try done.
    apply (Hle cy' g); [done | by right].
  - apply cluster_step_B_inv; [done| |done].
    intros cy Hcy. apply (Hle cy f); [done | by left].
Qed.

Lemma cluster_init_inv tol : cluster_inv tol cluster_init.
Proof. repeat split; simpl; by repeat constructor. Qed.

(** The rows of [sort_features_B] lie one above the other and each one hangs
    within [tol_y] below its first feature. *)
Lemma rows_B_inv fs tol :
  0 <= tol ->
  StronglySorted (row_above tol) (rows_B fs tol) /\
  Forall (row_anchored tol) (rows_B fs tol).
Proof.
  intros Hpos. unfold rows_B, finish_B. set (st := foldl _ _ _).
  assert (cluster_inv tol st) as (Hss & Hanch & Hcur).
  { apply foldl_cluster_B_inv; [done|apply sorted_ordered|done|].
    apply cluster_init_inv. }
  destruct (current_row st) as [|a cur] eqn:E.
  - split; [|done]. by apply StronglySorted_app_1_l in Hss.
  - split; [done|]. apply Forall_app. split; [done|]. constructor; [|done].
    destruct (current_y st) as [cy|]; [|by destruct Hcur].
    destruct Hcur as (a0 & Hhead & Ha0 & Hin).
    exists a0. split; [done|]. intros b Hb. specialize (Hin b Hb). lia.
Qed.

(** ** The error monad *)

Lemma bind_Ok {A B} (r : result A) (k : A -> result B) (b : B) :
  (r ≫= k) = Ok b <-> exists a, r = Ok a /\ k a = Ok b.
Proof.
  destruct r as [a|e]; simpl; split.
  - eauto.
  - by intros (a' & [= ->] & H).
  - done.
  - by intros (a' & [=] & _).
Qed.

Ltac bind_inv H :=
  repeat match type of H with
         | (_ ≫= _) = Ok _ =>
             let a := fresh "v" in
             let H1 := fresh "Hv" in
             apply bind_Ok in H as (a & H1 & H)
         end.

Lemma for_each_Forall2 {A B} (body : A -> result B) items bs :
  for_each body items = Ok bs ->
  Forall2 (fun a b => body a = Ok b) items bs.
Proof.
  revert bs. induction items as [|a items IH]; intros bs H; simpl in H.
  - injection H as <-. constructor.
  - bind_inv H. injection H as <-. constructor; [done|]. by apply IH.
Qed.

Lemma for_each_total {A B} (body : A -> result B) items :
  (forall a, a ∈ items -> exists b, body a = Ok b) ->
  exists bs, for_each body items = Ok bs.
Proof.
  induction items as [|a items IH]; intros Hbody; simpl; [by eexists|].
  destruct (Hbody a) as [b ->]; [by left|].
  destruct IH as [bs ->]; [intros; apply Hbody; by right|].
  by eexists.
Qed.

(** ** One row of the grid *)

Lemma index_range_bounds :
  index_min <= 0 /\ 1 <= index_max /\ index_max < PyFloat.overflow_threshold.
Proof. repeat split; by vm_compute. Qed.

#[local] Opaque index_min index_max.

Lemma list_repeat_inv {A} (v : A) n l :
  list_repeat v n = Ok l -> l = replicate (Z.to_nat n) v.
Proof.
  unfold list_repeat. destruct (_ || _); [done|]. by intros [= <-].
Qed.

Lemma in_index_range_1 : in_index_range 1.
Proof. unfold in_index_range. pose proof index_range_bounds. lia. Qed.

Lemma list_repeat_Ok {A} (v : A) n :
  in_index_range n -> list_repeat v n = Ok (replicate (Z.to_nat n) v).
Proof.
  intros [Hmin Hmax]. unfold list_repeat.
  destruct (n <? index_min) eqn:E1; [apply Z.ltb_lt in E1; lia|].
  destruct (index_max <? n) eqn:E2; [apply Z.ltb_lt in E2; lia|].
  done.
Qed.

Lemma find_feature_Some used exp_x tol_x row f :
  find_feature used exp_x tol_x row = Ok (Some f) ->
  f ∈ row /\ ident f ∉ used.
Proof.
  induction row as [|g row IH]; simpl; intros H; [done|].
  case_decide as Hused.
  - destruct (IH H). split; [by right | done].
  - bind_inv H. destruct v.
    + injection H as <-. split; [by left | done].
    + destruct (IH H). split; [by right | done].
Qed.

Lemma present_cons c cells :
  present (c :: cells)
  = match c with Some f => f :: present cells | None => present cells end.
Proof. by destruct c. Qed.

Lemma present_app cells cells' :
  present (cells ++ cells') = present cells ++ present cells'.
Proof. apply omap_app. Qed.

Lemma present_replicate_None n : present (replicate n None) = [].
Proof. induction n; simpl; done. Qed.

Lemma present_pad_row cells expected_cols :
  present (pad_row cells expected_cols) = present cells.
Proof.
  unfold pad_row. by rewrite present_app, present_replicate_None, app_nil_r.
Qed.

(** The features put in the columns of a row are features of the row that
    were not used before, and no identity is taken twice. *)
Lemma fill_columns_spec used positions tol_x row cells :
  fill_columns used positions tol_x row = Ok cells ->
  length cells = length positions /\
  NoDup (ident <$> present cells) /\
  forall f, f ∈ present cells -> f ∈ row /\ ident f ∉ used.
Proof.
  revert used cells.
  induction positions as [|exp_x positions IH]; intros used cells H;
    simpl in H.
  - injection H as <-. simpl. split; [done|]. split; [constructor|].
    by intros f ?%elem_of_nil.
  - bind_inv H. injection H as <-.
    apply IH in Hv0 as (Hlen & Hnd & Hin). clear IH.
    split; [simpl; by rewrite Hlen|].
    rewrite present_cons. destruct v as [f|]; [|done].
    assert (f ∈ row /\ ident f ∉ used) as [Hf Hfu].
    { destruct exp_x; [by eapply find_feature_Some | done]. }
    split.
    + rewrite fmap_cons. apply NoDup_cons. split; [|done].
      intros (g & Hfg & Hg)%list_elem_of_fmap.
      destruct (Hin g Hg) as [_ Hgu]. apply Hgu. rewrite <- Hfg.
      apply elem_of_union. left. by apply elem_of_singleton.
    + intros g [-> | Hg]%elem_of_cons; [done|].
      destruct (Hin g Hg) as [Hgr Hgu]. split; [done|].
      intros Hc. apply Hgu. apply elem_of_union. by right.
Qed.

Lemma expected_positions_length row expected_cols positions :
  expected_positions row expected_cols = Ok positions ->
  length positions = Z.to_nat expected_cols.
Proof.
  unfold expected_positions. destruct row as [|first row].
  - intros ->%list_repeat_inv. apply length_replicate.
  - destruct (length (first :: row) =? 1)%nat.
    + intros ->%list_repeat_inv. apply length_replicate.
    + intros H. bind_inv H. apply for_each_Forall2, Forall2_length in H.
      rewrite <- H. unfold range. apply length_seqZ.
Qed.

Lemma align_row_spec expected_cols tol_x row cells :
  align_row expected_cols tol_x row = Ok cells ->
  length cells = Z.to_nat expected_cols /\
  NoDup (ident <$> present cells) /\
  forall f, f ∈ present cells -> f ∈ row.
Proof.
  unfold align_row. intros H. bind_inv H. injection H as <-.
  apply expected_positions_length in Hv.
  apply fill_columns_spec in Hv0 as (Hlen & Hnd & Hin).
  rewrite present_pad_row. split; [|split; [done|]].
  - unfold pad_row. rewrite length_app, length_replicate. lia.
  - intros f Hf. destruct (Hin f Hf) as [Hrow _].
    by apply sorted_elem_of in Hrow.
Qed.

(** ** The whole grid *)

Lemma StronglySorted_take {A} (R : relation A) n l :
  StronglySorted R l -> StronglySorted R (take n l).
Proof.
  intros H. rewrite <- (take_drop n l) in H.
  by apply StronglySorted_app_1_l in H.
Qed.

Lemma StronglySorted_impl_elem_of {A} (R R' : relation A) l :
  (forall a b, a ∈ l -> b ∈ l -> R a b -> R' a b) ->
  StronglySorted R l -> StronglySorted R' l.
Proof.
  induction l as [|a l IH]; intros Himpl Hs; [constructor|].
  apply StronglySorted_inv in Hs as [Hl Ha]. constructor.
  - apply IH; [|done]. intros b c Hb Hc. apply Himpl; by right.
  - rewrite Forall_forall in *. intros b Hb.
    apply Himpl; [by left | by right | by apply Ha].
Qed.

Lemma slice_to_take {A} (l : list A) n : exists k, slice_to l n = take k l.
Proof. unfold slice_to. by eexists. Qed.

Lemma fit_rows_length rows expected_rows :
  0 <= expected_rows ->
  length (fit_rows rows expected_rows) = Z.to_nat expected_rows.
Proof.
  intros Hpos. unfold fit_rows, slice_to.
  destruct (expected_rows <? _) eqn:E1; [|destruct (_ <? expected_rows) eqn:E2].
  - apply Z.ltb_lt in E1. destruct (expected_rows <? 0) eqn:E; [lia|].
    rewrite length_take. lia.
  - apply Z.ltb_lt in E2. rewrite length_app, length_replicate. lia.
  - apply Z.ltb_ge in E1, E2. lia.
Qed.

Lemma fit_rows_elem_of rows expected_rows r a :
  r ∈ fit_rows rows expected_rows -> a ∈ r -> r ∈ rows.
Proof.
  unfold fit_rows.
  destruct (expected_rows <? _); [|destruct (_ <? expected_rows)].
  - destruct (slice_to_take rows expected_rows) as [k ->].
    intros (i & Hi & _)%elem_of_take _. by eapply list_elem_of_lookup_2.
  - intros [Hr | Hr]%elem_of_app Ha; [done|].
    apply elem_of_replicate_inv in Hr. subst. by apply elem_of_nil in Ha.
  - done.
Qed.

Lemma fit_rows_sorted (R : relation (list Feature)) rows expected_rows :
  (forall r, R r []) ->
  StronglySorted R rows ->
  StronglySorted R (fit_rows rows expected_rows).
Proof.
  intros Hnil Hs. unfold fit_rows.
  destruct (expected_rows <? _); [|destruct (_ <? expected_rows)].
  - destruct (slice_to_take rows expected_rows) as [k ->].
    by apply StronglySorted_take.
  - apply StronglySorted_app_2; [|done|].
    + intros r r' _ ->%elem_of_replicate_inv. apply Hnil.
    + induction (Z.to_nat _) as [|n IH]; simpl; constructor; [done|].
      apply Forall_forall. intros r' ->%elem_of_replicate_inv. apply Hnil.
  - done.
Qed.

Lemma sort_features_B_rows fs expected_rows expected_cols tol_y tol_x flat :
  sort_features_B fs expected_rows expected_cols tol_y tol_x = Ok flat ->
  exists grid,
    Forall2 (fun row cells => align_row expected_cols tol_x row = Ok cells)
            (fit_rows (rows_B fs tol_y) expected_rows) grid /\
    flat = concat grid.
Proof.
  unfold sort_features_B. intros H. bind_inv H. injection H as <-.
  exists v. split; [by apply for_each_Forall2 | done].
Qed.

Lemma grid_length (rows : list (list Feature)) grid n :
  Forall2 (fun _ (cells : list (option Feature)) => length cells = n) rows grid ->
  length (concat grid) = (length rows * n)%nat.
Proof.
  induction 1 as [|row cells rows grid Hc _ IH]; simpl; [done|].
  rewrite length_app, IH, Hc. lia.
Qed.

Lemma grid_present_elem_of (rows : list (list Feature)) grid f :
  Forall2 (fun row cells => forall g, g ∈ present cells -> g ∈ row) rows grid ->
  f ∈ present (concat grid) ->
  exists row, row ∈ rows /\ f ∈ row.
Proof.
  induction 1 as [|row cells rows grid Hc _ IH]; simpl.
  - by intros ?%elem_of_nil.
  - rewrite present_app. intros [Hf | Hf]%elem_of_app.
    + exists row. split; [left | by apply Hc].
    + destruct (IH Hf) as (row' & Hrow' & Hf'). exists row'.
      split; [by right | done].
Qed.

(** Rows that hold different objects give a grid without a repeated object. *)
Lemma grid_NoDup (rows : list (list Feature)) grid :
  Forall2 (fun row cells => NoDup (ident <$> present cells) /\
                            forall g, g ∈ present cells -> g ∈ row) rows grid ->
  StronglySorted rows_apart rows ->
  NoDup (ident <$> present (concat grid)).
Proof.
  induction 1 as [|row cells rows grid [Hnd Hc] Hrest IH]; simpl;
    intros Hs; [constructor|].
  apply StronglySorted_inv in Hs as [Hs Hrow].
  rewrite present_app, fmap_app. apply NoDup_app.
  split; [done|]. split; [|by apply IH].
  intros i (a & -> & Ha)%list_elem_of_fmap (b & Hab & Hb)%list_elem_of_fmap.
  eapply grid_present_elem_of in Hb as (row' & Hrow' & Hb).
  2: { eapply Forall2_impl; [exact Hrest|]. by intros ?? [_ ?]. }
  rewrite Forall_forall in Hrow.
  by apply (Hrow row' Hrow' a b); [apply Hc|..].
Qed.

Lemma rows_apart_nil r : rows_apart r [].
Proof. by intros a b _ ?%elem_of_nil. Qed.

(** Distinct objects in the input: the rows hold different objects. *)
Lemma rows_apart_of_NoDup (rows : list (list Feature)) :
  NoDup (ident <$> concat rows) -> StronglySorted rows_apart rows.
Proof.
  induction rows as [|r rows IH]; simpl; [constructor|].
  rewrite fmap_app. intros (_ & Hdis & Hnd)%NoDup_app.
  constructor; [by apply IH|].
  apply Forall_forall. intros r' Hr' a b Ha Hb Hab.
  apply (Hdis (ident a)); [by apply list_elem_of_fmap_2|].
  rewrite Hab. apply list_elem_of_fmap_2, elem_of_concat. eauto.
Qed.

(** A tolerance that is not negative: a repeated object has one [y] and the
    rows are apart in [y]. *)
Lemma rows_apart_of_above fs tol :
  ident_consistent fs -> 0 <= tol ->
  StronglySorted rows_apart (rows_B fs tol).
Proof.
  intros Hid Hpos.
  destruct (rows_B_inv fs tol Hpos) as [Hs _].
  eapply StronglySorted_impl_elem_of; [|exact Hs].
  intros r r' Hr Hr' [Habove _] a b Ha Hb Hab.
  specialize (Habove a b Ha Hb).
  assert (a = b) as ->; [|lia].
  apply Hid; [exact (rows_B_elem_of _ _ _ _ Hr Ha)
             |exact (rows_B_elem_of _ _ _ _ Hr' Hb) | done].
Qed.

Lemma rows_B_apart fs tol :
  NoDup (ident <$> fs) \/ (ident_consistent fs /\ 0 <= tol) ->
  StronglySorted rows_apart (rows_B fs tol).
Proof.
  intros [Hnd | [Hid Hpos]]; [|by apply rows_apart_of_above].
  apply rows_apart_of_NoDup. rewrite rows_B_concat.
  by rewrite (sorted_perm y true fs).
Qed.

Lemma NoDup_omap_lookup {A B} (h : A -> option B) (l : list A) i j a b c :
  NoDup (omap h l) ->
  l !! i = Some a -> l !! j = Some b -> h a = Some c -> h b = Some c ->
  i = j.
Proof.
  revert i j. induction l as [|d l IH]; intros i j Hnd Hi Hj Ha Hb; [done|].
  assert (forall k e, l !! k = Some e -> h e = Some c -> c ∈ omap h l) as Hmem.
  { intros k e Hk He. apply list_elem_of_omap. exists e.
    split; [by eapply list_elem_of_lookup_2 | done]. }
  simpl in Hnd.
  destruct i as [|i], j as [|j]; simpl in *; simplify_eq.
  - done.
  - rewrite Ha in Hnd. apply NoDup_cons in Hnd as [Hnot _].
    destruct Hnot. by eapply Hmem.
  - rewrite Hb in Hnd. apply NoDup_cons in Hnd as [Hnot _].
    destruct Hnot. by eapply Hmem.
  - f_equal. apply IH; try done.
    destruct (h d); [by apply NoDup_cons in Hnd as [_ ?] | done].
Qed.

(** ** When the arithmetic cannot raise *)

Lemma overflow_threshold_pos : 0 < PyFloat.overflow_threshold.
Proof. by vm_compute. Qed.

#[local] Opaque PyFloat.overflow_threshold.

Lemma of_int_total n :
  Z.abs n < PyFloat.overflow_threshold -> exists f, PyFloat.of_int n = Ok f.
Proof.
  intros Hn. unfold PyFloat.of_int.
  destruct (_ <=? _) eqn:E; [apply Z.leb_le in E; lia | by eexists].
Qed.

Lemma true_div_total a b :
  b <> 0 -> Z.abs a < PyFloat.overflow_threshold ->
  exists f, PyFloat.true_div a b = Ok f.
Proof.
  intros Hb Ha. unfold PyFloat.true_div.
  destruct (b =? 0) eqn:E0; [apply Z.eqb_eq in E0; lia|].
  destruct (_ <=? _) eqn:E; [apply Z.leb_le in E; nia | by eexists].
Qed.

Lemma true_div_zero a : PyFloat.true_div a 0 = Raise ZeroDivisionError.
Proof. done. Qed.

Lemma int_mul_total i f :
  Z.abs i < PyFloat.overflow_threshold -> exists p, PyFloat.int_mul i f = Ok p.
Proof.
  intros Hi. unfold PyFloat.int_mul.
  destruct (of_int_total i Hi) as [fi ->]. by eexists.
Qed.

Lemma int_add_total n f :
  Z.abs n < PyFloat.overflow_threshold -> exists p, PyFloat.int_add n f = Ok p.
Proof.
  intros Hn. unfold PyFloat.int_add.
  destruct (of_int_total n Hn) as [fn ->]. by eexists.
Qed.

Lemma int_sub_total n f :
  Z.abs n < PyFloat.overflow_threshold -> exists p, PyFloat.int_sub n f = Ok p.
Proof.
  intros Hn. unfold PyFloat.int_sub.
  destruct (of_int_total n Hn) as [fn ->]. by eexists.
Qed.

Lemma last_elem_of {A} (l : list A) d : l <> [] -> List.last l d ∈ l.
Proof.
  induction l as [|a [|b l] IH]; intros Hl; [done| by left |].
  right. by apply IH.
Qed.

Lemma expected_positions_total row expected_cols :
  expected_cols <> 1 ->
  in_index_range expected_cols ->
  coords_in_range row ->
  exists positions, expected_positions row expected_cols = Ok positions.
Proof.
  intros Hc1 Hidx Hrow. unfold expected_positions.
  assert (expected_cols <= PyFloat.overflow_threshold) as Hc
    by (destruct Hidx; pose proof index_range_bounds; lia).
  destruct row as [|first row]; [rewrite list_repeat_Ok by done; by eexists|].
  destruct (_ =? _)%nat; [rewrite list_repeat_Ok by done; by eexists|].
  assert (first ∈ first :: row) as Hfirst by left.
  assert (List.last (first :: row) first ∈ first :: row) as Hlast
    by by apply last_elem_of.
  apply Hrow in Hfirst, Hlast.
  destruct (true_div_total (x (List.last (first :: row) first) - x first)
              (expected_cols - 1)) as [step ->]; [lia..|].
  simpl. apply for_each_total. intros i [Hi0 Hi]%elem_of_seqZ.
  destruct (int_mul_total i step) as [p ->]; [lia|]. simpl.
  destruct (int_add_total (x first) p) as [e ->]; [lia|]. by eexists.
Qed.

Lemma within_tol_total fx exp_x tol_x :
  Z.abs fx < PyFloat.overflow_threshold ->
  exists close, within_tol fx exp_x tol_x = Ok close.
Proof.
  intros Hfx. destruct exp_x as [e|e]; simpl; [by eexists|].
  destruct (int_sub_total fx e Hfx) as [d ->]. by eexists.
Qed.

Lemma find_feature_total used exp_x tol_x row :
  coords_in_range row ->
  exists found, find_feature used exp_x tol_x row = Ok found.
Proof.
  induction row as [|f row IH]; intros Hrow; simpl; [by eexists|].
  assert (coords_in_range row) as Hrow'
    by (intros g Hg; apply Hrow; by right).
  case_decide; [by apply IH|].
  destruct (within_tol_total (x f) exp_x tol_x) as [close ->].
  { assert (f ∈ f :: row) as Hf by left. apply Hrow in Hf. lia. }
  simpl. destruct close; [by eexists | by apply IH].
Qed.

Lemma fill_columns_total used positions tol_x row :
  coords_in_range row ->
  exists cells, fill_columns used positions tol_x row = Ok cells.
Proof.
  intros Hrow. revert used.
  induction positions as [|exp_x positions IH]; intros used; simpl;
    [by eexists|].
  assert (exists found,
             match exp_x with
             | Some e => find_feature used e tol_x row
             | None => Ok None
             end = Ok found) as [found ->].
  { destruct exp_x; [by apply find_feature_total | by eexists]. }
  simpl. destruct (IH (match found with
                       | Some f => {[ident f]} ∪ used
                       | None => used
                       end)) as [cells ->].
  by eexists.
Qed.

Lemma align_row_total expected_cols tol_x row :
  expected_cols <> 1 ->
  in_index_range expected_cols ->
  coords_in_range row ->
  exists cells, align_row expected_cols tol_x row = Ok cells.
Proof.
  intros Hc1 Hc Hrow. unfold align_row.
  assert (coords_in_range (sorted row x false)) as Hsorted
    by (intros f Hf; by apply Hrow, (sorted_elem_of x false)).
  destruct (expected_positions_total _ _ Hc1 Hc Hsorted) as [positions ->].
  simpl.
  destruct (fill_columns_total ∅ positions tol_x _ Hsorted) as [cells ->].
  by eexists.
Qed.

(** Apart from a grid of one column, with a number of columns that fits the
    index type and coordinates within the range of the doubles, the alignment
    returns. *)
Lemma sort_features_B_total fs expected_rows expected_cols tol_y tol_x :
  expected_cols <> 1 ->
  in_index_range expected_cols ->
  coords_in_range fs ->
  exists flat,
    sort_features_B fs expected_rows expected_cols tol_y tol_x = Ok flat.
Proof.
  intros Hc1 Hc Hfs. unfold sort_features_B.
  destruct (for_each_total (align_row expected_cols tol_x)
              (fit_rows (rows_B fs tol_y) expected_rows)) as [grid ->];
    [|by eexists].
  intros row Hrow. apply align_row_total; [done..|].
  intros f Hf. apply Hfs.
  eapply rows_B_elem_of; [|exact Hf]. by eapply fit_rows_elem_of.
Qed.

(** Whatever is returned has [expected_cols] cells for every row. *)
Lemma sort_features_B_length fs expected_rows expected_cols tol_y tol_x flat :
  sort_features_B fs expected_rows expected_cols tol_y tol_x = Ok flat ->
  length flat
  = (length (fit_rows (rows_B fs tol_y) expected_rows)
     * Z.to_nat expected_cols)%nat.
Proof.
  intros (grid & Hgrid & ->)%sort_features_B_rows.
  apply grid_length. eapply Forall2_impl; [exact Hgrid|].
  intros row cells H. by apply align_row_spec in H as [? _].
Qed.

(** * The reading-order sort *)

(** C4. [sort_features_A] returns a permutation of its input, for every input
    and every tolerance: the same features, none dropped and none repeated,
    hence as many; the empty input gives the empty output. *)
Theorem sort_features_A_permutation (features : list Feature) (tol : Z) :
  sort_features_A features tol ≡ₚ features /\
  length (sort_features_A features tol) = length features /\
  sort_features_A [] tol = [].
Proof.
  assert (sort_features_A features tol ≡ₚ features) as Hperm.
  { unfold sort_features_A. rewrite rows_A_B.
    rewrite (concat_map_perm _ _ (sorted_perm x false)).
    rewrite rows_B_concat. apply sorted_perm. }
  split; [done|]. split; [by rewrite Hperm | done].
Qed.

(** C9. The output of [sort_features_A] is the concatenation of its rows;
    every row is sorted left to right, the [x] coordinates never decrease, and
    no row is empty. *)
Theorem rows_A_sorted_nonempty (features : list Feature) (tol : Z) :
  sort_features_A features tol = concat (rows_A features tol) /\
  Forall (fun row =>
            row <> [] /\ StronglySorted (fun a b => x a <= x b) row)
         (rows_A features tol).
Proof.
  split; [done|]. rewrite rows_A_B.
  pose proof (rows_B_nonempty features tol) as Hne.
  induction Hne as [|row rows Hrow _ IH]; simpl; constructor; [|done].
  split.
  - intros H. by apply sorted_nil_inv in H.
  - eapply StronglySorted_impl_elem_of; [|apply sorted_ordered].
    intros a b _ _ H. unfold ordered, key_le in H. lia.
Qed.

(** * Rows and their anchors *)

(** A feature that is at most [tol] below a highest feature of a row of
    [sort_features_B] is in that row. *)
Lemma rows_B_below_anchor fs tol row a b :
  row ∈ rows_B fs tol ->
  a ∈ row -> (forall c, c ∈ row -> y c <= y a) ->
  b ∈ fs -> y b <= y a -> y a - y b <= tol ->
  b ∈ row.
Proof.
  intros Hrow Ha Hmax Hb Hba Htol.
  assert (0 <= tol) as Hpos by lia.
  destruct (rows_B_inv fs tol Hpos) as [Hs Hanch].
  rewrite <- (sorted_elem_of y true), <- (rows_B_concat fs tol) in Hb.
  apply elem_of_concat in Hb as (row' & Hrow' & Hb).
  apply list_elem_of_split in Hrow as (above & below & Hsplit).
  rewrite Hsplit in Hs, Hrow'.
  apply StronglySorted_app in Hs as (Habove & _ & Hs).
  apply StronglySorted_inv in Hs as [_ Hbelow].
  apply elem_of_app in Hrow' as [Hrow' | Hrow'].
  - destruct (Habove row' row Hrow') as [H _]; [by left|].
    specialize (H b a Hb Ha). lia.
  - apply elem_of_cons in Hrow' as [-> | Hrow']; [done|].
    rewrite Forall_forall in Hbelow.
    destruct (Hbelow row' Hrow') as [_ H].
    destruct row as [|h row]; [by apply elem_of_nil in Ha|].
    specialize (H h b eq_refl Hb).
    assert (y h <= y a) by (apply Hmax; left). lia.
Qed.

(** C8, amended. In the rows of either function: when [a] is a highest
    feature of its row (the anchor, or level with it), every feature of the
    input that is at most [tol] below [a] is in the row of [a]. *)
Theorem row_holds_all_below_anchor
    (features : list Feature) (tol : Z) (row : list Feature) (a b : Feature) :
  row ∈ rows_A features tol \/ row ∈ rows_B features tol ->
  a ∈ row -> (forall c, c ∈ row -> y c <= y a) ->
  b ∈ features -> y b <= y a -> y a - y b <= tol ->
  b ∈ row.
Proof.
  intros [Hrow | Hrow] Ha Hmax Hb Hba Htol.
  - rewrite rows_A_B in Hrow.
    apply list_elem_of_fmap in Hrow as (row0 & -> & Hrow0).
    apply sorted_elem_of. apply sorted_elem_of in Ha.
    eapply (rows_B_below_anchor features tol row0 a b); try done.
    intros c Hc. apply Hmax. by apply sorted_elem_of.
  - by eapply (rows_B_below_anchor features tol row a b).
Qed.

(** Two features alone, at most [tol] apart, make one row in either input
    order. *)
Lemma rows_of_two_features (a b : Feature) (tol : Z) :
  Z.abs (y a - y b) <= tol ->
  exists row, rows_A [a; b] tol = [row] /\ a ∈ row /\ b ∈ row.
Proof.
  intros Htol. unfold rows_A, sorted. simpl.
  unfold key_le. destruct (y b <=? y a) eqn:E; simpl;
    unfold cluster_step_A; simpl.
  - destruct (Z.abs (y b - y a) <=? tol) eqn:E2; [|apply Z.leb_gt in E2; lia].
    simpl. unfold finish_A. simpl. eexists. split; [done|].
    unfold key_le.
    split; match goal with |- context [if ?c then _ else _] => destruct c end;
      repeat constructor.
  - destruct (Z.abs (y a - y b) <=? tol) eqn:E2; [|apply Z.leb_gt in E2; lia].
    simpl. unfold finish_A. simpl. eexists. split; [done|].
    unfold key_le.
    split; match goal with |- context [if ?c then _ else _] => destruct c end;
      repeat constructor.
Qed.

(** * The grid alignment *)

(** C10, amended. Whatever [sort_features_B] returns, every occupied cell
    holds a feature of the input, and no object of the input occupies two
    cells, when the features of the input are distinct objects, or, for a
    list that names an object more than once, when the tolerance [tol_y] is
    not negative. *)
Theorem sort_features_B_cells_from_input
    (features : list Feature) (expected_rows expected_cols tol_y tol_x : Z)
    (flat : list (option Feature)) :
  NoDup (ident <$> features) \/ (ident_consistent features /\ 0 <= tol_y) ->
  sort_features_B features expected_rows expected_cols tol_y tol_x = Ok flat ->
  (forall i f, flat !! i = Some (Some f) -> f ∈ features) /\
  (forall i j f g,
      flat !! i = Some (Some f) -> flat !! j = Some (Some g) ->
      ident f = ident g -> i = j).
Proof.
  intros Hobj (grid & Hgrid & ->)%sort_features_B_rows.
  assert (Forall2 (fun row cells =>
                     NoDup (ident <$> present cells) /\
                     forall g, g ∈ present cells -> g ∈ row)
                  (fit_rows (rows_B features tol_y) expected_rows) grid)
    as Hcells.
  { eapply Forall2_impl; [exact Hgrid|].
    intros row cells H. by apply align_row_spec in H as (_ & ? & ?). }
  split.
  - intros i f Hi.
    assert (f ∈ present (concat grid)) as Hf.
    { apply list_elem_of_omap. exists (Some f).
      split; [by eapply list_elem_of_lookup_2 | done]. }
    eapply grid_present_elem_of in Hf as (row & Hrow & Hf).
    2: { eapply Forall2_impl; [exact Hcells|]. by intros ?? [_ ?]. }
    eapply rows_B_elem_of; [|exact Hf]. by eapply fit_rows_elem_of.
  - intros i j f g Hi Hj Hfg.
    assert (NoDup (ident <$> present (concat grid))) as Hnd.
    { eapply grid_NoDup; [exact Hcells|].
      apply fit_rows_sorted; [apply rows_apart_nil | by apply rows_B_apart]. }
    unfold present in Hnd. rewrite list_fmap_omap in Hnd.
    eapply (NoDup_omap_lookup _ _ i j (Some f) (Some g) (ident f));
      [exact Hnd | done | done | done | by rewrite Hfg].
Qed.

(** Outside a grid of one column, with a number of columns that fits the
    index type and coordinates within the range of the doubles, the grid has
    [expected_rows * expected_cols] cells. *)
Lemma sort_features_B_shape fs expected_rows expected_cols tol_y tol_x :
  expected_cols <> 1 ->
  in_index_range expected_cols ->
  coords_in_range fs ->
  0 <= expected_rows ->
  exists flat,
    sort_features_B fs expected_rows expected_cols tol_y tol_x = Ok flat /\
    length flat = (Z.to_nat expected_rows * Z.to_nat expected_cols)%nat.
Proof.
  intros Hc1 Hc Hfs Hrows.
  destruct (sort_features_B_total fs expected_rows expected_cols tol_y tol_x)
    as [flat Hflat]; [done..|].
  exists flat. split; [done|].
  rewrite (sort_features_B_length _ _ _ _ _ _ Hflat).
  by rewrite fit_rows_length.
Qed.

(** A grid of one column: a row of two features or more divides by zero. *)
Lemma align_row_single_column tol_x row :
  (2 <= length row)%nat -> align_row 1 tol_x row = Raise ZeroDivisionError.
Proof.
  intros Hlen. unfold align_row, expected_positions.
  rewrite <- (sorted_length x false) in Hlen.
  destruct (sorted row x false) as [|first [|second rest]];
    simpl in Hlen; [lia..|].
  done.
Qed.

Lemma align_row_single_column_short tol_x row :
  (length row < 2)%nat -> exists cells, align_row 1 tol_x row = Ok cells.
Proof.
  intros Hlen. unfold align_row, expected_positions.
  rewrite <- (sorted_length x false) in Hlen.
  destruct (sorted row x false) as [|first [|second rest]];
    simpl in Hlen; [| |lia]; simpl;
    rewrite list_repeat_Ok by apply in_index_range_1; simpl.
  - by eexists.
  - case_decide; [by eexists|].
    destruct (_ <=? _); by eexists.
Qed.

Lemma sort_features_B_single_column fs expected_rows tol_y tol_x :
  Exists (fun row => (2 <= length row)%nat)
         (fit_rows (rows_B fs tol_y) expected_rows) ->
  sort_features_B fs expected_rows 1 tol_y tol_x = Raise ZeroDivisionError.
Proof.
  intros Hlong. unfold sort_features_B.
  induction Hlong as [row rows Hrow | row rows _ IH]; simpl.
  - by rewrite align_row_single_column.
  - destruct (le_lt_dec 2 (length row)) as [Hrow | Hrow].
    + by rewrite align_row_single_column.
    + destruct (align_row_single_column_short tol_x row Hrow) as [cells ->].
      simpl. by destruct (for_each _ rows).
Qed.

(** No column at all: every row is aligned to the empty row. *)
Lemma align_row_no_columns expected_cols tol_x row :
  index_min <= expected_cols <= 0 -> coords_in_range row ->
  align_row expected_cols tol_x row = Ok [].
Proof.
  intros Hc Hrow. unfold align_row.
  assert (coords_in_range (sorted row x false)) as Hsorted
    by (intros f Hf; by apply Hrow, (sorted_elem_of x false)).
  destruct (expected_positions_total (sorted row x false) expected_cols)
    as [positions Hpos];
    [lia | unfold in_index_range; pose proof index_range_bounds; lia
     | done |].
  rewrite Hpos. apply expected_positions_length in Hpos.
  destruct positions; [|simpl in Hpos; lia].
  simpl. unfold pad_row. simpl.
  by replace (Z.to_nat (expected_cols - Z.of_nat 0)) with 0%nat by lia.
Qed.

Lemma for_each_all_nil {A B} (body : A -> result (list B)) items :
  (forall a, a ∈ items -> body a = Ok []) ->
  exists bs, for_each body items = Ok bs /\ concat bs = [].
Proof.
  induction items as [|a items IH]; intros Hbody; simpl; [by eexists|].
  rewrite (Hbody a) by left.
  destruct IH as (bs & -> & Hbs); [intros; apply Hbody; by right|].
  simpl. by eexists.
Qed.

Lemma fit_rows_zero rows : fit_rows rows 0 = [].
Proof.
  unfold fit_rows, slice_to.
  destruct (0 <? _) eqn:E; [done|]. apply Z.ltb_ge in E.
  destruct rows; [done | simpl in E; lia].
Qed.

(** C7, amended. [sort_features_B] does not check [expected_rows] and
    [expected_cols]: with [expected_rows = 0], or with [expected_cols <= 0]
    (not below the least index, [-2^63]) and coordinates in the range of the
    doubles, it returns the empty list. *)
Theorem sort_features_B_no_validation
    (features : list Feature) (expected_rows expected_cols tol_y tol_x : Z) :
  expected_rows = 0 \/
  (index_min <= expected_cols <= 0 /\ coords_in_range features) ->
  sort_features_B features expected_rows expected_cols tol_y tol_x = Ok [].
Proof.
  intros [-> | [Hc Hfs]]; unfold sort_features_B.
  - by rewrite fit_rows_zero.
  - destruct (for_each_all_nil (align_row expected_cols tol_x)
                (fit_rows (rows_B features tol_y) expected_rows))
      as (grid & -> & Hgrid).
    + intros row Hrow. apply align_row_no_columns; [done|].
      destruct row as [|f0 row]; [by intros f ?%elem_of_nil|].
      intros f Hf. apply Hfs. eapply rows_B_elem_of; [|exact Hf].
      eapply fit_rows_elem_of; [exact Hrow | exact Hf].
    + simpl. by rewrite Hgrid.
Qed.

(** * The scenarios of the specification *)

(** C1, as stated, fails: the chain 0, 90, 180 is not clustered into a single
    row by either function. *)
Lemma chain_0_90_180_not_one_row :
  ~ (exists row, rows_A chain_0_90_180 100 = [row]) /\
  ~ (exists row, rows_B chain_0_90_180 100 = [row]).
Proof. split; intros [row H]; vm_compute in H; discriminate. Qed.

(** C1, amended. With a tolerance of 100, features at [y] = 0, 90 and 180
    make two rows: the feature at 180 is the anchor, the one at 90 joins it
    and the one at 0, 180 below the anchor, opens the second row.  Features
    at 0 and 150 make two rows as well. *)
Theorem anchor_splits_chain
    (i0 i1 i2 : positive) (t0 t1 t2 : string) (x0 x1 x2 : Z) :
  let f0 := mkFeature i0 t0 x0 0 in
  let f90 := mkFeature i1 t1 x1 90 in
  let f180 := mkFeature i2 t2 x2 180 in
  let f150 := mkFeature i1 t1 x1 150 in
  rows_B [f0; f90; f180] 100 = [[f180; f90]; [f0]] /\
  rows_A [f0; f90; f180] 100 = [sorted [f180; f90] x false; [f0]] /\
  rows_B [f0; f150] 100 = [[f150]; [f0]] /\
  rows_A [f0; f150] 100 = [[f150]; [f0]].
Proof. repeat split. Qed.

(** C2: a grid of one column over two features of one row returns no list,
    the interpolation step divides by zero. *)
Theorem single_column_two_features_raises :
  sort_features_B two_in_a_row 1 1 default_tol_y default_tol_x
  = Raise ZeroDivisionError.
Proof. reflexivity. Qed.

(** C3: aligning the fixture [numbers_1] to three rows of one column raises
    [ZeroDivisionError]. *)
Theorem numbers_1_single_column_raises :
  sort_features_B numbers_1 3 1 default_tol_y default_tol_x
  = Raise ZeroDivisionError.
Proof. reflexivity. Qed.

(** C5, as stated, fails: the grid of [numbers_1] does not have its only
    empty cell at row 1, column 3. *)
Lemma numbers_1_gap_not_at_row_1_col_3 :
  ~ (exists flat,
        sort_features_B numbers_1 3 4 default_tol_y default_tol_x = Ok flat /\
        forall i, flat !! i = Some None <-> i = (1 * 4 + 3)%nat).
Proof.
  intros (flat & Hflat & Hgap). vm_compute in Hflat.
  injection Hflat as <-.
  destruct (Hgap 7%nat) as [_ H]. specialize (H eq_refl). discriminate.
Qed.

(** C5, amended. Aligned to three rows of four columns with the default
    tolerances, [numbers_1] leaves six cells empty, columns 1 and 2 of every
    row; row 1, column 3 holds the feature "8". *)
Theorem numbers_1_grid :
  sort_features_B numbers_1 3 4 default_tol_y default_tol_x
  = Ok [ Some (mkFeature 1 "1" 132 3736); None; None;
         Some (mkFeature 7 "3" 2963 3752);
         Some (mkFeature 2 "5" 107 2723); None; None;
         Some (mkFeature 10 "8" 4400 2698);
         Some (mkFeature 5 "9" 83 1685); None; None;
         Some (mkFeature 11 "12" 4400 1643) ].
Proof. vm_compute. reflexivity. Qed.

(** C6, as stated, fails: [times_1] is not sorted into four rows of three
    columns. *)
Lemma times_1_not_four_rows_of_three :
  ~ (length (rows_A times_1 default_tol) = 4%nat /\
     Forall (fun row => length row = 3%nat) (rows_A times_1 default_tol)).
Proof. intros [H _]. vm_compute in H. discriminate. Qed.

(** C6, amended. With the default tolerance, [times_1] is sorted into three
    rows of four columns, the rows by descending [y] and each row by ascending
    [x]: the row at [y] about 3800 ([x] = 331, 1734, 3171, 4599), then the row
    at about 2780, then the row at about 1725. *)
Theorem times_1_reading_order :
  rows_A times_1 default_tol
  = [ [ mkFeature 1 "10:47 PM" 331 3808; mkFeature 3 "10:29 PM" 1734 3816;
        mkFeature 7 "10:26 PM" 3171 3818; mkFeature 10 "10:23 PM" 4599 3793 ];
      [ mkFeature 2 "10:13 PM" 306 2788; mkFeature 4 "10:08 PM" 1718 2780;
        mkFeature 8 "10:02 PM" 3163 2772; mkFeature 11 "10:01 PM" 4615 2762 ];
      [ mkFeature 5 "9:51 PM" 290 1759; mkFeature 6 "9:48 PM" 1710 1743;
        mkFeature 9 "9:46 PM" 3154 1733; mkFeature 12 "9:43 PM" 4607 1725 ] ]
  /\ sort_features_A times_1 default_tol
     = [ mkFeature 1 "10:47 PM" 331 3808; mkFeature 3 "10:29 PM" 1734 3816;
         mkFeature 7 "10:26 PM" 3171 3818; mkFeature 10 "10:23 PM" 4599 3793;
         mkFeature 2 "10:13 PM" 306 2788; mkFeature 4 "10:08 PM" 1718 2780;
         mkFeature 8 "10:02 PM" 3163 2772; mkFeature 11 "10:01 PM" 4615 2762;
         mkFeature 5 "9:51 PM" 290 1759; mkFeature 6 "9:48 PM" 1710 1743;
         mkFeature 9 "9:46 PM" 3154 1733; mkFeature 12 "9:43 PM" 4607 1725 ].
Proof. split; vm_compute; reflexivity. Qed.

(** C7, as stated, fails: with [expected_cols = 0], and with
    [expected_rows = 0], the call returns a grid, the empty one. *)
Lemma non_positive_arguments_return :
  sort_features_B numbers_1 3 0 default_tol_y default_tol_x = Ok [] /\
  sort_features_B numbers_1 0 4 default_tol_y default_tol_x = Ok [] /\
  sort_features_B numbers_1 3 (-2) default_tol_y default_tol_x = Ok [].
Proof. repeat split; vm_compute; reflexivity. Qed.

(** C10, as stated, fails: a list that names one object twice, aligned to two
    rows of one column with a negative [tol_y], puts the object in both
    cells; the set of used identities is a new one for every row. *)
Lemma same_object_in_two_cells :
  let f := mkFeature 1 "a" 0 0 in
  let flat := [Some f; Some f] in
  0 < 2 /\ 0 < 1 /\
  sort_features_B [f; f] 2 1 (-1) default_tol_x = Ok flat /\
  ~ (forall i j a b,
        flat !! i = Some (Some a) -> flat !! j = Some (Some b) ->
        ident a = ident b -> i = j).
Proof.
  intros f flat. repeat split.
  intros H. by specialize (H 0%nat 1%nat f f eq_refl eq_refl eq_refl).
Qed.

(** C8, as stated, fails: in [chain_200_150_90] the features at 150 and 90
    are 60 apart, within the tolerance of 100, and no row holds both. *)
Lemma close_features_in_different_rows :
  let a := mkFeature 2 "b" 10 150 in
  let b := mkFeature 3 "c" 20 90 in
  a ∈ chain_200_150_90 /\ b ∈ chain_200_150_90 /\
  Z.abs (y a - y b) <= 100 /\
  ~ (exists row, row ∈ rows_A chain_200_150_90 100 /\ a ∈ row /\ b ∈ row).
Proof.
  intros a b. split; [by apply (bool_decide_unpack _)|].
  split; [by apply (bool_decide_unpack _)|].
  split; [by vm_compute|].
  intros (row & Hrow & Ha & Hb).
  change (rows_A chain_200_150_90 100)
    with [[mkFeature 1 "a" 0 200; a]; [b]] in Hrow.
  apply elem_of_cons in Hrow as [-> | Hrow].
  - revert Hb. by apply (bool_decide_unpack _).
  - apply list_elem_of_singleton in Hrow as ->.
    revert Ha. by apply (bool_decide_unpack _).
Qed.

(** * Instances *)

Lemma numbers_1_in_range : coords_in_range numbers_1.
Proof.
  unfold coords_in_range. apply Forall_forall.
  by apply (bool_decide_unpack _).
Qed.

(** [sort_features_B_no_validation] at [numbers_1], a grid without a
    column. *)
Lemma sort_features_B_no_validation_witness :
  (3 = 0 \/ (index_min <= 0 <= 0 /\ coords_in_range numbers_1)) /\
  sort_features_B numbers_1 3 0 default_tol_y default_tol_x = Ok [].
Proof.
  assert (3 = 0 \/ (index_min <= 0 <= 0 /\ coords_in_range numbers_1)) as H.
  { right. split; [|exact numbers_1_in_range].
    split; [by vm_compute | lia]. }
  split; [exact H|].
  exact (sort_features_B_no_validation numbers_1 3 0 default_tol_y
           default_tol_x H).
Defined.

(** [row_holds_all_below_anchor] at [chain_200_150_90]: the feature at 150 is
    in the row of the anchor at 200. *)
Lemma row_holds_all_below_anchor_witness :
  let a := mkFeature 1 "a" 0 200 in
  let b := mkFeature 2 "b" 10 150 in
  let row := [a; b] in
  (row ∈ rows_A chain_200_150_90 100 \/ row ∈ rows_B chain_200_150_90 100) /\
  a ∈ row /\ (forall c, c ∈ row -> y c <= y a) /\
  b ∈ chain_200_150_90 /\ y b <= y a /\ y a - y b <= 100 /\
  b ∈ row.
Proof.
  intros a b row.
  assert (row ∈ rows_A chain_200_150_90 100
          \/ row ∈ rows_B chain_200_150_90 100) as H1
    by (left; by apply (bool_decide_unpack _)).
  assert (a ∈ row) as H2 by by apply (bool_decide_unpack _).
  assert (forall c, c ∈ row -> y c <= y a) as H3
    by (apply Forall_forall; by apply (bool_decide_unpack _)).
  assert (b ∈ chain_200_150_90) as H4 by by apply (bool_decide_unpack _).
  assert (y b <= y a) as H5 by by vm_compute.
  assert (y a - y b <= 100) as H6 by by vm_compute.
  repeat (split; [assumption|]).
  exact (row_holds_all_below_anchor chain_200_150_90 100 row a b
           H1 H2 H3 H4 H5 H6).
Defined.

(** [sort_features_B_cells_from_input] at [numbers_1] and its grid of three
    rows and four columns. *)
Lemma sort_features_B_cells_from_input_witness :
  let flat :=
    [ Some (mkFeature 1 "1" 132 3736); None; None;
      Some (mkFeature 7 "3" 2963 3752);
      Some (mkFeature 2 "5" 107 2723); None; None;
      Some (mkFeature 10 "8" 4400 2698);
      Some (mkFeature 5 "9" 83 1685); None; None;
      Some (mkFeature 11 "12" 4400 1643) ] in
  (NoDup (ident <$> numbers_1)
   \/ (ident_consistent numbers_1 /\ 0 <= default_tol_y)) /\
  sort_features_B numbers_1 3 4 default_tol_y default_tol_x = Ok flat /\
  (forall i f, flat !! i = Some (Some f) -> f ∈ numbers_1) /\
  (forall i j f g,
      flat !! i = Some (Some f) -> flat !! j = Some (Some g) ->
      ident f = ident g -> i = j).
Proof.
  intros flat.
  assert (NoDup (ident <$> numbers_1)
          \/ (ident_consistent numbers_1 /\ 0 <= default_tol_y)) as H1
    by (left; by apply (bool_decide_unpack _)).
  assert (sort_features_B numbers_1 3 4 default_tol_y default_tol_x = Ok flat)
    as H2 by (vm_compute; reflexivity).
  split; [exact H1|]. split; [exact H2|].
  exact (sort_features_B_cells_from_input numbers_1 3 4 default_tol_y
           default_tol_x flat H1 H2).
Defined.

(** * Further properties of the clustering *)

Lemma StronglySorted_lookup {A} (R : relation A) (l : list A) i j a b :
  StronglySorted R l ->
  l !! i = Some a -> l !! j = Some b -> (i < j)%nat -> R a b.
Proof.
  intros Hs. revert i j.
  induction Hs as [|c l Hs IH Hc]; intros i j Hi Hj Hij; [done|].
  destruct j as [|j]; [lia|]. destruct i as [|i]; simpl in *.
  - injection Hi as <-. rewrite Forall_forall in Hc.
    apply Hc. by eapply list_elem_of_lookup_2.
  - apply (IH i j); [done..|lia].
Qed.

Lemma StronglySorted_all_pairs {A} (P : relation A) (l : list A) :
  (forall a b, a ∈ l -> b ∈ l -> P a b) -> StronglySorted P l.
Proof.
  induction l as [|c l IH]; intros HP; constructor.
  - apply IH. intros a b Ha Hb. apply HP; by right.
  - apply Forall_forall. intros b Hb. apply HP; [left | by right].
Qed.

Lemma StronglySorted_concat {A} (P : relation A) (ls : list (list A)) :
  Forall (fun l => forall a b, a ∈ l -> b ∈ l -> P a b) ls ->
  StronglySorted (fun l l' => forall a b, a ∈ l -> b ∈ l' -> P a b) ls ->
  StronglySorted P (concat ls).
Proof.
  induction ls as [|l ls IH]; intros Hin Hs; simpl; [constructor|].
  apply Forall_cons in Hin as [Hl Hin].
  apply StronglySorted_inv in Hs as [Hs Hcross].
  apply StronglySorted_app_2; [|by apply StronglySorted_all_pairs|by apply IH].
  intros a b Ha (l' & Hl' & Hb)%elem_of_concat.
  rewrite Forall_forall in Hcross. by apply (Hcross l').
Qed.

(** X1. Both functions cluster alike: the rows of [sort_features_A] are the
    rows of [sort_features_B], each sorted by [x]; there are as many. *)
Theorem clustering_agrees (features : list Feature) (tol : Z) :
  rows_A features tol = map (fun row => sorted row x false) (rows_B features tol)
  /\ length (rows_A features tol) = length (rows_B features tol).
Proof.
  split; [apply rows_A_B|]. rewrite rows_A_B. apply length_map.
Qed.

(** X2. Clustering only cuts the list sorted by descending [y]: the rows of
    [sort_features_B], one after the other, are that list, and none of them is
    empty. *)
Theorem rows_B_cut_sorted_list (features : list Feature) (tol_y : Z) :
  concat (rows_B features tol_y) = sorted features y true /\
  Forall (fun row => row <> []) (rows_B features tol_y).
Proof. split; [apply rows_B_concat | apply rows_B_nonempty]. Qed.

(** X3. With a tolerance that is not negative, the first feature of a row of
    [sort_features_B] is the highest of the row, every feature of the row is
    at most [tol_y] below it, and every feature of a later row is more than
    [tol_y] below it. *)
Theorem rows_B_anchors
    (features : list Feature) (tol_y : Z) (i : nat) (row : list Feature) :
  0 <= tol_y ->
  rows_B features tol_y !! i = Some row ->
  exists a,
    head row = Some a /\
    (forall b, b ∈ row -> y a - tol_y <= y b <= y a) /\
    (forall j row' b,
        (i < j)%nat -> rows_B features tol_y !! j = Some row' -> b ∈ row' ->
        y b < y a - tol_y).
Proof.
  intros Hpos Hi. destruct (rows_B_inv features tol_y Hpos) as [Hs Hanch].
  rewrite Forall_forall in Hanch.
  destruct (Hanch row) as (a & Ha & Hrow);
    [by eapply list_elem_of_lookup_2|].
  exists a. split; [done|]. split; [done|].
  intros j row' b Hij Hj Hb.
  by destruct (StronglySorted_lookup _ _ i j row row' Hs Hi Hj Hij) as [_ H];
    apply H.
Qed.

(** X4. With a tolerance that is not negative, the output of
    [sort_features_A] never climbs by more than the tolerance: a feature that
    comes later is at most [tol] higher than one that comes before. *)
Theorem sort_features_A_descends (features : list Feature) (tol : Z) :
  0 <= tol ->
  StronglySorted (fun a b => y b <= y a + tol) (sort_features_A features tol).
Proof.
  intros Hpos. unfold sort_features_A. rewrite rows_A_B.
  destruct (rows_B_inv features tol Hpos) as [Hs Hanch].
  apply StronglySorted_concat.
  - apply Forall_fmap. eapply Forall_impl; [exact Hanch|].
    intros row (h & _ & Hrow) a b Ha%sorted_elem_of Hb%sorted_elem_of.
    specialize (Hrow a Ha) as Ha'. specialize (Hrow b Hb) as Hb'. simpl. lia.
  - apply (StronglySorted_fmap _ (row_above tol)); [|done].
    intros r r' [Hrr' _] a b Ha%sorted_elem_of Hb%sorted_elem_of.
    specialize (Hrr' a b Ha Hb). lia.
Qed.

(** With a negative tolerance no feature joins an open row. *)
Lemma foldl_cluster_B_negative tol l st :
  tol < 0 ->
  (current_y st = None -> current_row st = []) ->
  (current_y st <> None -> current_row st <> []) ->
  finish_B (foldl (cluster_step_B tol) st l)
  = finish_B st ++ map (fun f => [f]) l.
Proof.
  intros Hneg. revert st.
  induction l as [|f l IH]; intros st Hnone Hsome; simpl.
  - by rewrite app_nil_r.
  - rewrite IH.
    + unfold finish_B. step_cases st.
      * apply Z.leb_le in Htol. lia.
      * destruct (current_row st) eqn:E; [by destruct Hsome|].
        by rewrite <- app_assoc.
      * rewrite (Hnone eq_refl). simpl. by rewrite <- app_assoc.
    + step_cases st; done.
    + step_cases st; intros _; try done; by destruct (current_row st).
Qed.

Lemma sorted_singleton key reverse f : sorted [f] key reverse = [f].
Proof. done. Qed.

Lemma concat_singletons {A} (l : list A) : concat (map (fun a => [a]) l) = l.
Proof. induction l as [|a l IH]; simpl; [done | by rewrite IH]. Qed.

(** X5. With a negative tolerance every feature is a row of its own, and
    [sort_features_A] returns the features by descending [y] (features level
    in [y] in their input order); [x] plays no part. *)
Theorem negative_tolerance_splits_all (features : list Feature) (tol : Z) :
  tol < 0 ->
  rows_B features tol = map (fun f => [f]) (sorted features y true) /\
  rows_A features tol = map (fun f => [f]) (sorted features y true) /\
  sort_features_A features tol = sorted features y true.
Proof.
  intros Hneg.
  assert (rows_B features tol = map (fun f => [f]) (sorted features y true))
    as HB.
  { unfold rows_B. by rewrite foldl_cluster_B_negative. }
  assert (rows_A features tol = map (fun f => [f]) (sorted features y true))
    as HA.
  { rewrite rows_A_B, HB, map_map. done. }
  split; [done|]. split; [done|].
  unfold sort_features_A. rewrite HA. apply concat_singletons.
Qed.

(** Features within the tolerance of the anchor all join the open row. *)
Lemma foldl_cluster_B_within tol l closed open cy :
  (forall f, f ∈ l -> Z.abs (y f - cy) <= tol) ->
  foldl (cluster_step_B tol) (mkState closed open (Some cy)) l
  = mkState closed (open ++ l) (Some cy).
Proof.
  revert open. induction l as [|f l IH]; intros open Hl; simpl.
  - by rewrite app_nil_r.
  - unfold cluster_step_B at 2. simpl.
    destruct (Z.abs (y f - cy) <=? tol) eqn:E.
    + rewrite IH; [by rewrite <- app_assoc|].
      intros g Hg. apply Hl. by right.
    + apply Z.leb_gt in E. assert (f ∈ f :: l) as Hf by left. specialize (Hl f Hf). lia.
Qed.

(** X6. When no two features are further apart in [y] than the tolerance,
    there is one row: [sort_features_A] returns the features by ascending
    [x], features level in [x] by descending [y]. *)
Theorem one_row_when_close (features : list Feature) (tol : Z) :
  features <> [] ->
  (forall a b, a ∈ features -> b ∈ features -> y a - y b <= tol) ->
  rows_B features tol = [sorted features y true] /\
  sort_features_A features tol = sorted (sorted features y true) x false.
Proof.
  intros Hne Hclose.
  assert (rows_B features tol = [sorted features y true]) as HB.
  { unfold rows_B.
    destruct (sorted features y true) as [|a l] eqn:E;
      [by apply sorted_nil_inv in E|].
    assert (forall f, f ∈ a :: l -> f ∈ features) as Hin
      by (intros f Hf; rewrite <- E in Hf; by apply sorted_elem_of in Hf).
    simpl. unfold cluster_step_B at 2. simpl.
    rewrite foldl_cluster_B_within; [done|].
    intros f Hf.
    assert (y f - y a <= tol) by (apply Hclose; apply Hin; [by right | left]).
    assert (y a - y f <= tol) by (apply Hclose; apply Hin; [left | by right]).
    lia. }
  split; [done|].
  unfold sort_features_A. rewrite rows_A_B, HB. simpl. apply app_nil_r.
Qed.

(** * Further properties of the grid alignment *)

Lemma fill_columns_no_position used n tol_x row :
  fill_columns used (replicate n None) tol_x row = Ok (replicate n None).
Proof. induction n as [|n IH]; simpl; [done|]. by rewrite IH. Qed.

Lemma pad_row_full cells expected_cols :
  length cells = Z.to_nat expected_cols -> pad_row cells expected_cols = cells.
Proof.
  intros Hlen. unfold pad_row.
  replace (Z.to_nat (expected_cols - Z.of_nat (length cells))) with 0%nat
    by lia.
  apply app_nil_r.
Qed.

Lemma align_row_empty expected_cols tol_x :
  in_index_range expected_cols ->
  align_row expected_cols tol_x [] = Ok (replicate (Z.to_nat expected_cols) None).
Proof.
  intros Hidx. unfold align_row. simpl. rewrite list_repeat_Ok by done. simpl.
  rewrite fill_columns_no_position. simpl.
  by rewrite pad_row_full by apply length_replicate.
Qed.

(** An empty row that is aligned gives empty cells. *)
Lemma align_row_empty_inv expected_cols tol_x cells :
  align_row expected_cols tol_x [] = Ok cells ->
  cells = replicate (Z.to_nat expected_cols) None.
Proof.
  unfold align_row. simpl. intros H. bind_inv H. injection H as <-.
  apply list_repeat_inv in Hv as ->.
  rewrite fill_columns_no_position in Hv0. injection Hv0 as <-.
  by rewrite pad_row_full by apply length_replicate.
Qed.

Lemma for_each_replicate {A B} (body : A -> result B) a b n :
  body a = Ok b -> for_each body (replicate n a) = Ok (replicate n b).
Proof. intros H. induction n as [|n IH]; simpl; [done|]. by rewrite H, IH. Qed.

Lemma concat_replicate {A} (v : A) m n :
  concat (replicate m (replicate n v)) = replicate (m * n) v.
Proof.
  induction m as [|m IH]; simpl; [done|]. by rewrite IH, replicate_add.
Qed.

Lemma fit_rows_nil expected_rows :
  fit_rows [] expected_rows = replicate (Z.to_nat expected_rows) [].
Proof.
  unfold fit_rows, slice_to. cbn [length]. change (Z.of_nat 0) with 0.
  destruct (expected_rows <? 0) eqn:E.
  - apply Z.ltb_lt in E. rewrite take_nil.
    by replace (Z.to_nat expected_rows) with 0%nat by lia.
  - destruct (0 <? expected_rows) eqn:E'.
    + by rewrite Z.sub_0_r.
    + apply Z.ltb_ge in E, E'.
      by replace (Z.to_nat expected_rows) with 0%nat by lia.
Qed.

(** X7. Without any feature, and with a number of columns that fits the
    index type (or no row to make), [sort_features_B] returns a grid of empty
    cells, [expected_rows] times [expected_cols] of them (none when either is
    negative): it does not divide, a single column included. *)
Theorem sort_features_B_no_feature (expected_rows expected_cols tol_y tol_x : Z) :
  expected_rows <= 0 \/ in_index_range expected_cols ->
  sort_features_B [] expected_rows expected_cols tol_y tol_x
  = Ok (replicate (Z.to_nat expected_rows * Z.to_nat expected_cols) None).
Proof.
  intros Hargs. unfold sort_features_B.
  change (rows_B [] tol_y) with (@nil (list Feature)).
  rewrite fit_rows_nil. destruct Hargs as [Hrows | Hidx].
  - by replace (Z.to_nat expected_rows) with 0%nat by lia.
  - rewrite (for_each_replicate _ _ _ _
               (align_row_empty expected_cols tol_x Hidx)).
    simpl. by rewrite concat_replicate.
Qed.

Lemma fill_columns_used used n e tol_x f :
  ident f ∈ used ->
  fill_columns used (replicate n (Some e)) tol_x [f] = Ok (replicate n None).
Proof.
  intros Hused. induction n as [|n IH]; simpl; [done|].
  case_decide; [|done]. simpl. by rewrite IH.
Qed.

(** X8. A row with a single feature, for a number of columns from 1 to the
    greatest index: when [tol_x] is not negative the feature goes to column 0
    and the other columns stay empty; no arithmetic on floats is involved. *)
Theorem align_row_single_feature (expected_cols tol_x : Z) (f : Feature) :
  1 <= expected_cols <= index_max -> 0 <= tol_x ->
  align_row expected_cols tol_x [f]
  = Ok (Some f :: replicate (Z.to_nat expected_cols - 1) None).
Proof.
  intros Hc Htol. unfold align_row. simpl.
  rewrite list_repeat_Ok
    by (unfold in_index_range; pose proof index_range_bounds; lia).
  replace (Z.to_nat expected_cols) with (S (Z.to_nat expected_cols - 1)) at 1
    by lia.
  simpl. case_decide as Hused; [by apply not_elem_of_empty in Hused|].
  replace (x f - x f) with 0 by lia. change (Z.abs 0) with 0.
  destruct (0 <=? tol_x) eqn:E; [|apply Z.leb_gt in E; lia].
  simpl. rewrite fill_columns_used.
  - simpl. rewrite pad_row_full; [done|]. simpl. rewrite length_replicate. lia.
  - apply elem_of_union. left. by apply elem_of_singleton.
Qed.

(** X9. With any number of columns but one, from 0 to the greatest index,
    and coordinates within the range of the doubles, [sort_features_B]
    returns, and the grid has [expected_rows * expected_cols] cells, however
    many features and rows there are. *)
Theorem sort_features_B_grid_shape
    (features : list Feature) (expected_rows expected_cols tol_y tol_x : Z) :
  expected_cols <> 1 ->
  0 <= expected_cols <= index_max ->
  coords_in_range features ->
  0 <= expected_rows ->
  exists flat,
    sort_features_B features expected_rows expected_cols tol_y tol_x = Ok flat
    /\ Z.of_nat (length flat) = expected_rows * expected_cols.
Proof.
  intros Hc1 Hc Hfs Hrows.
  assert (in_index_range expected_cols) as Hidx
    by (unfold in_index_range; pose proof index_range_bounds; lia).
  destruct (sort_features_B_total features expected_rows expected_cols
              tol_y tol_x Hc1 Hidx Hfs) as [flat Hflat].
  exists flat. split; [done|].
  apply sort_features_B_rows in Hflat as (grid & Hgrid & ->).
  rewrite (grid_length (fit_rows (rows_B features tol_y) expected_rows) grid
             (Z.to_nat expected_cols)).
  - rewrite fit_rows_length by done. lia.
  - eapply Forall2_impl; [exact Hgrid|].
    intros row cells H. by apply align_row_spec in H as [? _].
Qed.

(** X10. With one column, a row of two features or more among the rows kept
    makes [sort_features_B] raise [ZeroDivisionError]. *)
Theorem single_column_raises
    (features : list Feature) (expected_rows tol_y tol_x : Z) :
  Exists (fun row => (2 <= length row)%nat)
         (fit_rows (rows_B features tol_y) expected_rows) ->
  sort_features_B features expected_rows 1 tol_y tol_x
  = Raise ZeroDivisionError.
Proof.
  intros Hlong. unfold sort_features_B.
  induction Hlong as [row rows Hrow | row rows _ IH]; simpl.
  - by rewrite align_row_single_column.
  - destruct (le_lt_dec 2 (length row)) as [Hrow | Hrow].
    + by rewrite align_row_single_column.
    + destruct (align_row_single_column_short tol_x row Hrow) as [cells ->].
      simpl. by destruct (for_each _ rows).
Qed.

Lemma for_each_fmap {A B} (body : A -> result B) (g : A -> B) items :
  (forall a, a ∈ items -> body a = Ok (g a)) ->
  for_each body items = Ok (g <$> items).
Proof.
  induction items as [|a items IH]; intros Hbody; simpl; [done|].
  rewrite (Hbody a) by left. simpl.
  rewrite IH by (intros; apply Hbody; by right). done.
Qed.

Lemma concat_fmap_singleton {A B} (g : A -> B) (l : list A) :
  concat ((fun a => [g a]) <$> l) = g <$> l.
Proof.
  induction l as [|a l IH]; [done|].
  rewrite !fmap_cons. cbn [concat app]. by rewrite IH.
Qed.

Lemma align_row_single_column_head tol_x row :
  (length row < 2)%nat -> 0 <= tol_x ->
  align_row 1 tol_x row = Ok [head row].
Proof.
  intros Hlen Htol. destruct row as [|f [|g row]]; simpl in Hlen; [| |lia].
  - apply align_row_empty, in_index_range_1.
  - rewrite align_row_single_feature; [done| |done].
    pose proof index_range_bounds. lia.
Qed.

(** X11. With one column, when no row kept has two features and [tol_x] is
    not negative, [sort_features_B] returns one cell for each row: the feature
    of the row, or None for an empty row. *)
Theorem single_column_of_short_rows
    (features : list Feature) (expected_rows tol_y tol_x : Z) :
  Forall (fun row => (length row < 2)%nat)
         (fit_rows (rows_B features tol_y) expected_rows) ->
  0 <= tol_x ->
  sort_features_B features expected_rows 1 tol_y tol_x
  = Ok (head <$> fit_rows (rows_B features tol_y) expected_rows).
Proof.
  intros Hshort Htol. unfold sort_features_B.
  rewrite (for_each_fmap _ (fun row => [head row])).
  - simpl. by rewrite concat_fmap_singleton.
  - rewrite Forall_forall in Hshort. intros row Hrow.
    apply align_row_single_column_head; [by apply Hshort | done].
Qed.

Lemma within_tol_negative fx exp_x tol_x close :
  tol_x < 0 -> within_tol fx exp_x tol_x = Ok close -> close = false.
Proof.
  intros Hneg. destruct exp_x as [e|e]; simpl; intros H.
  - injection H as <-. apply Z.leb_gt. lia.
  - bind_inv H. injection H as <-.
    unfold PyFloat.abs, PyFloat.le_int.
    destruct v as [s|s| |s m e']; simpl; try done.
    + apply Z.leb_gt. lia.
    + destruct (0 <=? e') eqn:E; apply Z.leb_gt.
      * apply Z.leb_le in E.
        assert (0 < 2 ^ e') by by apply Z.pow_pos_nonneg. nia.
      * apply Z.leb_gt in E.
        assert (0 < 2 ^ (- e')) by (apply Z.pow_pos_nonneg; lia). nia.
Qed.

Lemma find_feature_negative used exp_x tol_x row found :
  tol_x < 0 -> find_feature used exp_x tol_x row = Ok found -> found = None.
Proof.
  intros Hneg. induction row as [|f row IH]; simpl; intros H.
  - by injection H as <-.
  - case_decide; [by apply IH|]. bind_inv H.
    apply within_tol_negative in Hv as ->; [by apply IH | done].
Qed.

Lemma fill_columns_negative used positions tol_x row cells :
  tol_x < 0 -> fill_columns used positions tol_x row = Ok cells ->
  Forall (fun c => c = None) cells.
Proof.
  intros Hneg. revert used cells.
  induction positions as [|exp_x positions IH]; intros used cells H;
    simpl in H.
  - injection H as <-. constructor.
  - bind_inv H. injection H as <-. constructor; [|by eapply IH].
    destruct exp_x; [by eapply find_feature_negative | by injection Hv as <-].
Qed.

(** X12. With a negative [tol_x] no feature is ever within reach of a column:
    whatever [sort_features_B] returns has only empty cells. *)
Theorem negative_tol_x_empty_grid
    (features : list Feature) (expected_rows expected_cols tol_y tol_x : Z)
    (flat : list (option Feature)) :
  tol_x < 0 ->
  sort_features_B features expected_rows expected_cols tol_y tol_x = Ok flat ->
  Forall (fun cell => cell = None) flat.
Proof.
  intros Hneg (grid & Hgrid & ->)%sort_features_B_rows.
  induction Hgrid as [|row cells rows grid Hrow _ IH]; simpl; [constructor|].
  apply Forall_app. split; [|done].
  unfold align_row in Hrow. bind_inv Hrow. injection Hrow as <-.
  unfold pad_row. apply Forall_app. split.
  - by eapply fill_columns_negative.
  - by apply Forall_replicate.
Qed.

(** X13. Step 3 never reorders the rows: a negative [expected_rows] cuts that
    many rows off the end, otherwise the result is the first [expected_rows]
    of the clustered rows followed by empty rows. *)
Theorem fit_rows_prefix (rows : list (list Feature)) (expected_rows : Z) :
  fit_rows rows expected_rows
  = if expected_rows <? 0
    then take (length rows - Z.to_nat (- expected_rows)) rows
    else take (Z.to_nat expected_rows)
              (rows ++ replicate (Z.to_nat expected_rows) []).
Proof.
  unfold fit_rows, slice_to.
  destruct (expected_rows <? 0) eqn:Eneg.
  - apply Z.ltb_lt in Eneg.
    destruct (expected_rows <? _) eqn:E; [|apply Z.ltb_ge in E; lia].
    f_equal. lia.
  - apply Z.ltb_ge in Eneg.
    destruct (expected_rows <? _) eqn:E1; [|destruct (_ <? expected_rows) eqn:E2].
    + apply Z.ltb_lt in E1. rewrite take_app_le by lia. done.
    + apply Z.ltb_lt in E2. rewrite take_app, take_ge, take_replicate by lia.
      do 2 f_equal. lia.
    + apply Z.ltb_ge in E1, E2. by rewrite take_app_length' by lia.
Qed.

(** X14. With a tolerance that is not negative, the features that step 3
    leaves out are the lowest: each of them is lower than every feature of a
    row that is kept. *)
Theorem fit_rows_keeps_highest
    (features : list Feature) (expected_rows tol_y : Z) (a b : Feature) :
  0 <= tol_y ->
  a ∈ concat (fit_rows (rows_B features tol_y) expected_rows) ->
  b ∈ features ->
  b ∉ concat (fit_rows (rows_B features tol_y) expected_rows) ->
  y b < y a.
Proof.
  intros Hpos Ha Hb Hnb.
  destruct (rows_B_inv features tol_y Hpos) as [Hs _].
  rewrite <- (sorted_elem_of y true), <- (rows_B_concat features tol_y) in Hb.
  revert Ha Hnb. unfold fit_rows.
  destruct (expected_rows <? _); [|destruct (_ <? expected_rows)].
  - destruct (slice_to_take (rows_B features tol_y) expected_rows) as [k ->].
    rewrite <- (take_drop k (rows_B features tol_y)) in Hs, Hb.
    rewrite concat_app in Hb.
    intros (row & Hrow & Ha)%elem_of_concat Hnb.
    apply elem_of_app in Hb as [Hb | (row' & Hrow' & Hb)%elem_of_concat];
      [done|].
    destruct (StronglySorted_app_1_elem_of _ _ _ _ _ Hs Hrow Hrow') as [H _].
    by apply H.
  - intros _ Hnb. destruct Hnb. rewrite concat_app. apply elem_of_app. by left.
  - done.
Qed.

Lemma concat_lookup_uniform {A} (ls : list (list A)) n i v :
  (0 < n)%nat ->
  Forall (fun l => length l = n) ls ->
  concat ls !! i = Some v ->
  exists l, ls !! (i / n)%nat = Some l /\ l !! (i mod n)%nat = Some v.
Proof.
  intros Hn Hls. revert i.
  induction Hls as [|l ls Hl _ IH]; intros i Hi; simpl in Hi; [done|].
  apply lookup_app_Some in Hi as [Hi | [Hge Hi]].
  - assert (i < n)%nat by (rewrite <- Hl; by eapply lookup_lt_Some).
    exists l. rewrite Nat.div_small, Nat.mod_small by done. done.
  - destruct (IH _ Hi) as (l' & Hl' & Hv). exists l'.
    replace i with ((i - length l) + 1 * n)%nat at 1 2 by lia.
    rewrite Nat.div_add, Nat.Div0.mod_add by lia.
    rewrite Nat.add_1_r. done.
Qed.

(** The grid row by row: the cell of index [i] is in the row of number
    [i / expected_cols], and a feature in it comes from that clustered row. *)
Lemma grid_cell_row fs expected_rows expected_cols tol_y tol_x flat i f :
  sort_features_B fs expected_rows expected_cols tol_y tol_x = Ok flat ->
  flat !! i = Some (Some f) ->
  exists row,
    fit_rows (rows_B fs tol_y) expected_rows !! (i / Z.to_nat expected_cols)%nat
    = Some row /\ f ∈ row.
Proof.
  intros (grid & Hgrid & ->)%sort_features_B_rows Hi.
  assert (Forall (fun cells => length cells = Z.to_nat expected_cols) grid)
    as Hlen.
  { apply Forall_forall. intros cells Hcells.
    apply list_elem_of_lookup in Hcells as [k Hk].
    destruct (Forall2_lookup_r _ _ _ _ _ Hgrid Hk) as (row & _ & Hrow).
    by apply align_row_spec in Hrow as [? _]. }
  assert (0 < Z.to_nat expected_cols)%nat as Hn.
  { destruct (Z.to_nat expected_cols) eqn:E; [|lia].
    apply lookup_lt_Some in Hi.
    assert (length (concat grid) = 0%nat) as Hz; [|lia].
    clear Hi Hgrid. induction Hlen as [|cells grid Hc _ IH]; simpl; [done|].
    rewrite length_app, Hc, IH. done. }
  destruct (concat_lookup_uniform _ _ _ _ Hn Hlen Hi) as (cells & Hk & Hcell).
  destruct (Forall2_lookup_r _ _ _ _ _ Hgrid Hk) as (row & Hrow & Halign).
  exists row. split; [done|].
  apply align_row_spec in Halign as (_ & _ & Hin). apply Hin.
  apply list_elem_of_omap. exists (Some f).
  split; [by eapply list_elem_of_lookup_2 | done].
Qed.

(** X15. The grid is row-major: the cell of index [i] belongs to the row of
    number [i / expected_cols], and a feature found there is a feature of the
    clustered row of that number. *)
Theorem grid_is_row_major
    (features : list Feature) (expected_rows expected_cols tol_y tol_x : Z)
    (flat : list (option Feature)) (i : nat) (f : Feature) :
  sort_features_B features expected_rows expected_cols tol_y tol_x = Ok flat ->
  flat !! i = Some (Some f) ->
  exists row,
    fit_rows (rows_B features tol_y) expected_rows
      !! (i / Z.to_nat expected_cols)%nat = Some row /\
    f ∈ row.
Proof.
  intros Hflat Hi.
  destruct (grid_cell_row _ _ _ _ _ _ _ _ Hflat Hi) as (row & Hrow & Hf).
  by exists row.
Qed.

(** X16. With a tolerance [tol_y] that is not negative the grid goes down row
    by row: a feature in a later row of the grid is lower than a feature in an
    earlier row. *)
Theorem grid_rows_descend
    (features : list Feature) (expected_rows expected_cols tol_y tol_x : Z)
    (flat : list (option Feature)) (i j : nat) (f g : Feature) :
  0 <= tol_y ->
  sort_features_B features expected_rows expected_cols tol_y tol_x = Ok flat ->
  flat !! i = Some (Some f) -> flat !! j = Some (Some g) ->
  (i / Z.to_nat expected_cols < j / Z.to_nat expected_cols)%nat ->
  y g < y f.
Proof.
  intros Hpos Hflat Hi Hj Hij.
  destruct (grid_cell_row _ _ _ _ _ _ _ _ Hflat Hi) as (row & Hrow & Hf).
  destruct (grid_cell_row _ _ _ _ _ _ _ _ Hflat Hj) as (row' & Hrow' & Hg).
  destruct (rows_B_inv features tol_y Hpos) as [Hs _].
  apply (fit_rows_sorted _ _ expected_rows) in Hs.
  - destruct (StronglySorted_lookup _ _ _ _ _ _ Hs Hrow Hrow' Hij) as [H _].
    by apply H.
  - intros r. split; by intros a b _ ?%elem_of_nil.
Qed.

Lemma sort_features_B_present fs expected_rows expected_cols tol_y tol_x flat :
  NoDup (ident <$> fs) \/ (ident_consistent fs /\ 0 <= tol_y) ->
  sort_features_B fs expected_rows expected_cols tol_y tol_x = Ok flat ->
  NoDup (ident <$> present flat) /\
  forall f, f ∈ present flat -> f ∈ fs.
Proof.
  intros Hobj (grid & Hgrid & ->)%sort_features_B_rows.
  assert (Forall2 (fun row cells =>
                     NoDup (ident <$> present cells) /\
                     forall g, g ∈ present cells -> g ∈ row)
                  (fit_rows (rows_B fs tol_y) expected_rows) grid)
    as Hcells.
  { eapply Forall2_impl; [exact Hgrid|].
    intros row cells H. by apply align_row_spec in H as (_ & ? & ?). }
  split.
  - eapply grid_NoDup; [exact Hcells|].
    apply fit_rows_sorted; [apply rows_apart_nil | by apply rows_B_apart].
  - intros f Hf.
    eapply grid_present_elem_of in Hf as (row & Hrow & Hf).
    2: { eapply Forall2_impl; [exact Hcells|]. by intros ?? [_ ?]. }
    eapply rows_B_elem_of; [|exact Hf]. by eapply fit_rows_elem_of.
Qed.

(** X17. The grid never holds more features than the input has: with
    distinct objects in the input (or a tolerance [tol_y] that is not
    negative), the occupied cells are at most as many as the features. *)
Theorem occupied_cells_bounded
    (features : list Feature) (expected_rows expected_cols tol_y tol_x : Z)
    (flat : list (option Feature)) :
  NoDup (ident <$> features) \/ (ident_consistent features /\ 0 <= tol_y) ->
  sort_features_B features expected_rows expected_cols tol_y tol_x = Ok flat ->
  (length (present flat) <= length features)%nat.
Proof.
  intros Hobj Hflat.
  destruct (sort_features_B_present _ _ _ _ _ _ Hobj Hflat) as [Hnd Hin].
  apply submseteq_length, NoDup_submseteq; [|done].
  by apply NoDup_fmap_1 in Hnd.
Qed.

Lemma for_each_app {A B} (body : A -> result B) l1 l2 bs :
  for_each body (l1 ++ l2) = Ok bs ->
  exists b1 b2,
    bs = b1 ++ b2 /\ for_each body l1 = Ok b1 /\ for_each body l2 = Ok b2.
Proof.
  revert bs. induction l1 as [|a l1 IH]; intros bs H; simpl in H.
  - by exists [], bs.
  - bind_inv H. injection H as <-.
    destruct (IH _ Hv0) as (b1 & b2 & -> & H1 & H2).
    exists (v :: b1), b2. simpl. by rewrite Hv, H1.
Qed.

Lemma for_each_empty_rows expected_cols tol_x k bottom :
  for_each (align_row expected_cols tol_x) (replicate k []) = Ok bottom ->
  bottom = replicate k (replicate (Z.to_nat expected_cols) None).
Proof.
  intros H. apply for_each_Forall2 in H. revert bottom H.
  induction k as [|k IH]; intros bottom H; simpl in *.
  - by apply Forall2_nil_inv_l in H.
  - apply Forall2_cons_inv_l in H as (cells & rest & Hc & Hr & ->).
    apply align_row_empty_inv in Hc as ->. f_equal. by apply IH.
Qed.

(** X18. When fewer rows are found than expected, the missing rows are rows
    of empty cells at the end of the grid, after the cells of the rows
    found. *)
Theorem missing_rows_are_empty
    (features : list Feature) (expected_rows expected_cols tol_y tol_x : Z)
    (flat : list (option Feature)) :
  Z.of_nat (length (rows_B features tol_y)) <= expected_rows ->
  sort_features_B features expected_rows expected_cols tol_y tol_x = Ok flat ->
  exists top,
    flat = top ++ replicate ((Z.to_nat expected_rows
                              - length (rows_B features tol_y))
                             * Z.to_nat expected_cols) None /\
    length top
    = (length (rows_B features tol_y) * Z.to_nat expected_cols)%nat.
Proof.
  intros Hfew. unfold sort_features_B. intros H. bind_inv H.
  injection H as <-.
  assert (fit_rows (rows_B features tol_y) expected_rows
          = rows_B features tol_y
            ++ replicate (Z.to_nat expected_rows
                          - length (rows_B features tol_y)) []) as Hfit.
  { unfold fit_rows.
    destruct (expected_rows <? _) eqn:E1; [apply Z.ltb_lt in E1; lia|].
    destruct (_ <? expected_rows) eqn:E2.
    - do 2 f_equal. lia.
    - apply Z.ltb_ge in E2.
      replace (Z.to_nat expected_rows - length (rows_B features tol_y))%nat
        with 0%nat by lia.
      by rewrite app_nil_r. }
  rewrite Hfit in Hv.
  apply for_each_app in Hv as (top & bottom & -> & Htop & Hbottom).
  assert (bottom = replicate (Z.to_nat expected_rows
                                - length (rows_B features tol_y))
                             (replicate (Z.to_nat expected_cols) None)) as ->.
  { by eapply for_each_empty_rows. }
  exists (concat top). rewrite concat_app, concat_replicate. split; [done|].
  apply grid_length. apply for_each_Forall2 in Htop.
  eapply Forall2_impl; [exact Htop|].
  intros row cells Hrow. by apply align_row_spec in Hrow as [? _].
Qed.

(** * The order of the input *)

#[local] Instance in_band_dec top tol f : Decision (in_band top tol f).
Proof. unfold in_band. apply _. Defined.

Lemma sorted_same_ys fs fs' :
  fs ≡ₚ fs' -> same_ys (sorted fs y true) (sorted fs' y true).
Proof.
  intros Hperm. unfold same_ys.
  assert (AntiSymm (=) (fun a b : Z => b <= a)) by (intros a b ? ?; lia).
  apply (StronglySorted_unique (fun a b : Z => b <= a)).
  - apply (StronglySorted_fmap _ (ordered y true)); [|apply sorted_ordered].
    intros a b Hab. unfold ordered, key_le in Hab. lia.
  - apply (StronglySorted_fmap _ (ordered y true)); [|apply sorted_ordered].
    intros a b Hab. unfold ordered, key_le in Hab. lia.
  - by rewrite !sorted_perm, Hperm.
Qed.

(** The loop looks at the [y] of the features only. *)
Lemma foldl_cluster_B_shape tol l l' st st' :
  same_ys l l' -> same_shape st st' ->
  same_shape (foldl (cluster_step_B tol) st l)
             (foldl (cluster_step_B tol) st' l').
Proof.
  revert l' st st'.
  induction l as [|f l IH]; intros [|f' l'] st st' Hl Hst; try done.
  unfold same_ys in Hl. rewrite !fmap_cons in Hl. injection Hl as Hf Hl.
  simpl. apply IH; [done|].
  destruct Hst as (Hrows & Hcur & Hy). unfold cluster_step_B, same_shape.
  rewrite <- Hy, <- Hf.
  destruct (current_y st) as [cy|]; [destruct (_ <=? _)|]; simpl.
  - split; [done|]. split; [|done].
    unfold same_ys in *. by rewrite !fmap_app, Hcur, !fmap_cons, Hf.
  - split; [apply Forall2_app; [done | by constructor]|].
    split; [|done]. unfold same_ys. by rewrite !fmap_cons, Hf.
  - split; [done|]. split; [|done].
    unfold same_ys in *. by rewrite !fmap_app, Hcur, !fmap_cons, Hf.
Qed.

Lemma rows_B_same_ys fs fs' tol :
  fs ≡ₚ fs' -> Forall2 same_ys (rows_B fs tol) (rows_B fs' tol).
Proof.
  intros Hperm. unfold rows_B.
  pose proof (foldl_cluster_B_shape tol _ _ cluster_init cluster_init
                (sorted_same_ys fs fs' Hperm)) as (Hrows & Hcur & _).
  { by repeat split; try constructor. }
  unfold finish_B. unfold same_ys in Hcur.
  destruct (current_row _) as [|a cur], (current_row _) as [|a' cur'];
    try done.
  apply Forall2_app; [done|]. by constructor.
Qed.

(** A row is the band of height [tol] below its first feature, cut out of
    the list sorted by [y]. *)
Lemma rows_B_row_filter fs tol i row a :
  0 <= tol ->
  rows_B fs tol !! i = Some row -> head row = Some a ->
  row = filter (in_band (y a) tol) (sorted fs y true).
Proof.
  intros Hpos Hi Ha.
  destruct (rows_B_inv fs tol Hpos) as [Hs Hanch].
  rewrite <- (rows_B_concat fs tol).
  rewrite <- (take_drop_middle _ _ _ Hi) in Hs, Hanch |- *.
  apply StronglySorted_app in Hs as (Habove & _ & Hs).
  apply StronglySorted_inv in Hs as [_ Hbelow].
  apply Forall_app in Hanch as [_ [Hrow _]%Forall_cons].
  rewrite concat_app. simpl. rewrite !filter_app.
  assert (a ∈ row) as Hin by by apply head_Some_elem_of.
  assert (filter (in_band (y a) tol) (concat (take i (rows_B fs tol))) = [])
    as ->.
  { apply elem_of_nil_inv. intros b [Hb Hb']%list_elem_of_filter.
    apply elem_of_concat in Hb' as (row' & Hrow' & Hb').
    destruct (Habove row' row Hrow') as [H _]; [by left|].
    specialize (H b a Hb' Hin). unfold in_band in Hb. lia. }
  assert (filter (in_band (y a) tol)
            (concat (drop (S i) (rows_B fs tol))) = []) as ->.
  { apply elem_of_nil_inv. intros b [Hb Hb']%list_elem_of_filter.
    apply elem_of_concat in Hb' as (row' & Hrow' & Hb').
    rewrite Forall_forall in Hbelow. destruct (Hbelow row' Hrow') as [_ H].
    specialize (H a b Ha Hb'). unfold in_band in Hb. lia. }
  rewrite app_nil_r. simpl.
  destruct Hrow as (a' & Ha' & Hrow). rewrite Ha in Ha'. injection Ha' as <-.
  clear -Hrow. induction row as [|b row IH]; [done|].
  rewrite filter_cons_True by (apply Hrow; left).
  f_equal. apply IH. intros c Hc. apply Hrow. by right.
Qed.

(** For two orders of the same features the rows hold the same features. *)
Lemma rows_B_permutation fs fs' tol :
  fs ≡ₚ fs' -> 0 <= tol ->
  Forall2 (fun row row' => row ≡ₚ row') (rows_B fs tol) (rows_B fs' tol).
Proof.
  intros Hperm Hpos. pose proof (rows_B_same_ys _ _ tol Hperm) as Hshape.
  apply Forall2_same_length_lookup.
  split; [by eapply Forall2_length|].
  intros i row row' Hi Hi'.
  pose proof (Forall2_lookup_lr _ _ _ _ _ _ Hshape Hi Hi') as Hrr.
  assert (row <> []) as Hne.
  { pose proof (rows_B_nonempty fs tol) as H.
    rewrite Forall_forall in H. apply H. by eapply list_elem_of_lookup_2. }
  destruct row as [|a row]; [done|]. destruct row' as [|a' row']; [done|].
  unfold same_ys in Hrr. rewrite !fmap_cons in Hrr. injection Hrr as Ha _.
  rewrite (rows_B_row_filter _ _ _ _ a Hpos Hi eq_refl).
  rewrite (rows_B_row_filter _ _ _ _ a' Hpos Hi' eq_refl).
  by rewrite Ha, !sorted_perm, Hperm.
Qed.

(** X19. With a tolerance that is not negative the clusters do not depend on
    the order of the input: for two orders of the same features,
    [sort_features_B] finds as many rows, and row by row the same features. *)
Theorem clusters_independent_of_order
    (features features' : list Feature) (tol_y : Z) :
  features ≡ₚ features' -> 0 <= tol_y ->
  Forall2 (fun row row' => row ≡ₚ row')
          (rows_B features tol_y) (rows_B features' tol_y).
Proof. intros Hperm Hpos. by apply rows_B_permutation. Qed.

Lemma sorted_x_same_xs row row' :
  row ≡ₚ row' -> x <$> sorted row x false = x <$> sorted row' x false.
Proof.
  intros Hperm.
  assert (AntiSymm (=) (fun a b : Z => a <= b)) by (intros a b ? ?; lia).
  apply (StronglySorted_unique (fun a b : Z => a <= b)).
  - apply (StronglySorted_fmap _ (ordered x false)); [|apply sorted_ordered].
    intros a b Hab. unfold ordered, key_le in Hab. lia.
  - apply (StronglySorted_fmap _ (ordered x false)); [|apply sorted_ordered].
    intros a b Hab. unfold ordered, key_le in Hab. lia.
  - by rewrite !sorted_perm, Hperm.
Qed.

(** X20. With a tolerance that is not negative the reading order does not
    depend on the order of the input, up to features of one row that are
    level in [x]: for two orders of the same features, [sort_features_A]
    makes the same rows and returns the same [x] at every position. *)
Theorem reading_order_independent_of_order
    (features features' : list Feature) (tol : Z) :
  features ≡ₚ features' -> 0 <= tol ->
  Forall2 (fun row row' => row ≡ₚ row')
          (rows_A features tol) (rows_A features' tol) /\
  x <$> sort_features_A features tol = x <$> sort_features_A features' tol.
Proof.
  intros Hperm Hpos.
  pose proof (rows_B_permutation _ _ tol Hperm Hpos) as Hrows.
  unfold sort_features_A. rewrite !rows_A_B. split.
  - apply Forall2_fmap. eapply Forall2_impl; [exact Hrows|].
    intros row row' Hrr. simpl. by rewrite !sorted_perm.
  - induction Hrows as [|row row' rows rows' Hrr _ IH]; [done|].
    simpl. rewrite !fmap_app, IH. f_equal. by apply sorted_x_same_xs.
Qed.

(** * Instances of the further properties *)

Ltac decide_it := by apply (bool_decide_unpack _).

(** [rows_B_anchors] at the first row of [times_1]. *)
Lemma rows_B_anchors_witness :
  let row := [ mkFeature 7 "10:26 PM" 3171 3818;
               mkFeature 3 "10:29 PM" 1734 3816;
               mkFeature 1 "10:47 PM" 331 3808;
               mkFeature 10 "10:23 PM" 4599 3793 ] in
  0 <= 100 /\ rows_B times_1 100 !! 0%nat = Some row /\
  exists a,
    head row = Some a /\
    (forall b, b ∈ row -> y a - 100 <= y b <= y a) /\
    (forall j row' b,
        (0 < j)%nat -> rows_B times_1 100 !! j = Some row' -> b ∈ row' ->
        y b < y a - 100).
Proof.
  intros row.
  assert (0 <= 100) as H1 by lia.
  assert (rows_B times_1 100 !! 0%nat = Some row) as H2 by reflexivity.
  split; [exact H1|]. split; [exact H2|].
  exact (rows_B_anchors times_1 100 0 row H1 H2).
Defined.

(** [sort_features_A_descends] at [times_1]. *)
Lemma sort_features_A_descends_witness :
  0 <= 100 /\
  StronglySorted (fun a b => y b <= y a + 100) (sort_features_A times_1 100).
Proof.
  assert (0 <= 100) as H1 by lia.
  split; [exact H1|]. exact (sort_features_A_descends times_1 100 H1).
Defined.

(** [negative_tolerance_splits_all] at [chain_0_90_180]. *)
Lemma negative_tolerance_splits_all_witness :
  -1 < 0 /\
  rows_B chain_0_90_180 (-1)
  = map (fun f => [f]) (sorted chain_0_90_180 y true) /\
  rows_A chain_0_90_180 (-1)
  = map (fun f => [f]) (sorted chain_0_90_180 y true) /\
  sort_features_A chain_0_90_180 (-1) = sorted chain_0_90_180 y true.
Proof.
  assert (-1 < 0) as H1 by lia.
  split; [exact H1|].
  exact (negative_tolerance_splits_all chain_0_90_180 (-1) H1).
Defined.

(** [one_row_when_close] at [chain_0_90_180] and a tolerance of 200. *)
Lemma one_row_when_close_witness :
  chain_0_90_180 <> [] /\
  (forall a b, a ∈ chain_0_90_180 -> b ∈ chain_0_90_180 -> y a - y b <= 200) /\
  rows_B chain_0_90_180 200 = [sorted chain_0_90_180 y true] /\
  sort_features_A chain_0_90_180 200
  = sorted (sorted chain_0_90_180 y true) x false.
Proof.
  assert (chain_0_90_180 <> []) as H1 by done.
  assert (forall a b, a ∈ chain_0_90_180 -> b ∈ chain_0_90_180 ->
                      y a - y b <= 200) as H2.
  { assert (Forall (fun a => Forall (fun b => y a - y b <= 200)
                                    chain_0_90_180) chain_0_90_180) as HF
      by decide_it.
    intros a b Ha Hb. rewrite Forall_forall in HF. specialize (HF a Ha).
    rewrite Forall_forall in HF. by apply HF. }
  split; [exact H1|]. split; [exact H2|].
  exact (one_row_when_close chain_0_90_180 200 H1 H2).
Defined.

(** [align_row_single_feature]: one feature at [x] = 500, four columns. *)
Lemma align_row_single_feature_witness :
  let f := mkFeature 1 "a" 500 0 in
  1 <= 4 <= index_max /\ 0 <= 20 /\
  align_row 4 20 [f] = Ok (Some f :: replicate (Z.to_nat 4 - 1) None).
Proof.
  intros f.
  assert (1 <= 4 <= index_max) as H1 by (split; by vm_compute).
  assert (0 <= 20) as H2 by lia.
  split; [exact H1|]. split; [exact H2|].
  exact (align_row_single_feature 4 20 f H1 H2).
Defined.

(** [sort_features_B_no_feature] with three rows of one column. *)
Lemma sort_features_B_no_feature_witness :
  (3 <= 0 \/ in_index_range 1) /\
  sort_features_B [] 3 1 100 20
  = Ok (replicate (Z.to_nat 3 * Z.to_nat 1) None).
Proof.
  assert (3 <= 0 \/ in_index_range 1) as H1
    by (right; exact in_index_range_1).
  split; [exact H1|]. exact (sort_features_B_no_feature 3 1 100 20 H1).
Defined.

(** [sort_features_B_grid_shape] at [numbers_1], three rows of four
    columns. *)
Lemma sort_features_B_grid_shape_witness :
  4 <> 1 /\ 0 <= 4 <= index_max /\ coords_in_range numbers_1 /\
  0 <= 3 /\
  exists flat,
    sort_features_B numbers_1 3 4 default_tol_y default_tol_x = Ok flat /\
    Z.of_nat (length flat) = 3 * 4.
Proof.
  assert (4 <> 1) as H1 by lia.
  assert (0 <= 4 <= index_max) as H2 by (split; by vm_compute).
  assert (0 <= 3) as H4 by lia.
  split; [exact H1|]. split; [exact H2|].
  split; [exact numbers_1_in_range|]. split; [exact H4|].
  exact (sort_features_B_grid_shape numbers_1 3 4 default_tol_y default_tol_x
           H1 H2 numbers_1_in_range H4).
Defined.

(** [single_column_raises] at [numbers_1]. *)
Lemma single_column_raises_witness :
  Exists (fun row => (2 <= length row)%nat)
         (fit_rows (rows_B numbers_1 100) 3) /\
  sort_features_B numbers_1 3 1 100 20 = Raise ZeroDivisionError.
Proof.
  assert (Exists (fun row => (2 <= length row)%nat)
                 (fit_rows (rows_B numbers_1 100) 3)) as H1 by decide_it.
  split; [exact H1|]. exact (single_column_raises numbers_1 3 100 20 H1).
Defined.

(** [single_column_of_short_rows] at [pair_0_150] and three rows. *)
Lemma single_column_of_short_rows_witness :
  Forall (fun row => (length row < 2)%nat) (fit_rows (rows_B pair_0_150 100) 3)
  /\ 0 <= 20 /\
  sort_features_B pair_0_150 3 1 100 20
  = Ok (head <$> fit_rows (rows_B pair_0_150 100) 3).
Proof.
  assert (Forall (fun row => (length row < 2)%nat)
                 (fit_rows (rows_B pair_0_150 100) 3)) as H1 by decide_it.
  assert (0 <= 20) as H2 by lia.
  split; [exact H1|]. split; [exact H2|].
  exact (single_column_of_short_rows pair_0_150 3 100 20 H1 H2).
Defined.

(** [negative_tol_x_empty_grid] at [numbers_1] and [tol_x] = -1. *)
Lemma negative_tol_x_empty_grid_witness :
  -1 < 0 /\
  sort_features_B numbers_1 3 4 100 (-1) = Ok (replicate 12 None) /\
  Forall (fun cell => cell = None) (replicate 12 (@None Feature)).
Proof.
  assert (-1 < 0) as H1 by lia.
  assert (sort_features_B numbers_1 3 4 100 (-1) = Ok (replicate 12 None))
    as H2 by (vm_compute; reflexivity).
  split; [exact H1|]. split; [exact H2|].
  exact (negative_tol_x_empty_grid numbers_1 3 4 100 (-1) _ H1 H2).
Defined.

(** [fit_rows_keeps_highest] at [times_1] cut to two rows: the lowest feature
    kept against the highest feature left out. *)
Lemma fit_rows_keeps_highest_witness :
  let a := mkFeature 11 "10:01 PM" 4615 2762 in
  let b := mkFeature 5 "9:51 PM" 290 1759 in
  0 <= 100 /\
  a ∈ concat (fit_rows (rows_B times_1 100) 2) /\
  b ∈ times_1 /\
  (b ∉ concat (fit_rows (rows_B times_1 100) 2)) /\
  y b < y a.
Proof.
  intros a b.
  assert (0 <= 100) as H1 by lia.
  assert (a ∈ concat (fit_rows (rows_B times_1 100) 2)) as H2 by decide_it.
  assert (b ∈ times_1) as H3 by decide_it.
  assert (b ∉ concat (fit_rows (rows_B times_1 100) 2)) as H4 by decide_it.
  repeat (split; [assumption|]).
  exact (fit_rows_keeps_highest times_1 2 100 a b H1 H2 H3 H4).
Defined.

(** [grid_is_row_major] at the grid of [numbers_1]: the cell of index 7 is in
    row 1. *)
Lemma grid_is_row_major_witness :
  let flat :=
    [ Some (mkFeature 1 "1" 132 3736); None; None;
      Some (mkFeature 7 "3" 2963 3752);
      Some (mkFeature 2 "5" 107 2723); None; None;
      Some (mkFeature 10 "8" 4400 2698);
      Some (mkFeature 5 "9" 83 1685); None; None;
      Some (mkFeature 11 "12" 4400 1643) ] in
  let f := mkFeature 10 "8" 4400 2698 in
  sort_features_B numbers_1 3 4 100 20 = Ok flat /\
  flat !! 7%nat = Some (Some f) /\
  exists row,
    fit_rows (rows_B numbers_1 100) 3 !! (7 / Z.to_nat 4)%nat = Some row /\
    f ∈ row.
Proof.
  intros flat f.
  assert (sort_features_B numbers_1 3 4 100 20 = Ok flat) as H1
    by (vm_compute; reflexivity).
  assert (flat !! 7%nat = Some (Some f)) as H2 by reflexivity.
  split; [exact H1|]. split; [exact H2|].
  exact (grid_is_row_major numbers_1 3 4 100 20 flat 7 f H1 H2).
Defined.

(** [grid_rows_descend] at the grid of [numbers_1]: the cells of index 3
    (row 0) and 4 (row 1). *)
Lemma grid_rows_descend_witness :
  let flat :=
    [ Some (mkFeature 1 "1" 132 3736); None; None;
      Some (mkFeature 7 "3" 2963 3752);
      Some (mkFeature 2 "5" 107 2723); None; None;
      Some (mkFeature 10 "8" 4400 2698);
      Some (mkFeature 5 "9" 83 1685); None; None;
      Some (mkFeature 11 "12" 4400 1643) ] in
  let f := mkFeature 7 "3" 2963 3752 in
  let g := mkFeature 2 "5" 107 2723 in
  0 <= 100 /\
  sort_features_B numbers_1 3 4 100 20 = Ok flat /\
  flat !! 3%nat = Some (Some f) /\ flat !! 4%nat = Some (Some g) /\
  (3 / Z.to_nat 4 < 4 / Z.to_nat 4)%nat /\
  y g < y f.
Proof.
  intros flat f g.
  assert (0 <= 100) as H1 by lia.
  assert (sort_features_B numbers_1 3 4 100 20 = Ok flat) as H2
    by (vm_compute; reflexivity).
  assert (flat !! 3%nat = Some (Some f)) as H3 by reflexivity.
  assert (flat !! 4%nat = Some (Some g)) as H4 by reflexivity.
  assert (3 / Z.to_nat 4 < 4 / Z.to_nat 4)%nat as H5 by decide_it.
  repeat (split; [assumption|]).
  exact (grid_rows_descend numbers_1 3 4 100 20 flat 3 4 f g H1 H2 H3 H4 H5).
Defined.

(** [occupied_cells_bounded] at the grid of [numbers_1]. *)
Lemma occupied_cells_bounded_witness :
  let flat :=
    [ Some (mkFeature 1 "1" 132 3736); None; None;
      Some (mkFeature 7 "3" 2963 3752);
      Some (mkFeature 2 "5" 107 2723); None; None;
      Some (mkFeature 10 "8" 4400 2698);
      Some (mkFeature 5 "9" 83 1685); None; None;
      Some (mkFeature 11 "12" 4400 1643) ] in
  (NoDup (ident <$> numbers_1)
   \/ (ident_consistent numbers_1 /\ 0 <= 100)) /\
  sort_features_B numbers_1 3 4 100 20 = Ok flat /\
  (length (present flat) <= length numbers_1)%nat.
Proof.
  intros flat.
  assert (NoDup (ident <$> numbers_1)
          \/ (ident_consistent numbers_1 /\ 0 <= 100)) as H1
    by (left; decide_it).
  assert (sort_features_B numbers_1 3 4 100 20 = Ok flat) as H2
    by (vm_compute; reflexivity).
  split; [exact H1|]. split; [exact H2|].
  exact (occupied_cells_bounded numbers_1 3 4 100 20 flat H1 H2).
Defined.

(** [missing_rows_are_empty] at [pair_0_150]: two rows found, three
    expected. *)
Lemma missing_rows_are_empty_witness :
  let flat :=
    [ Some (mkFeature 2 "b" 10 150); None;
      Some (mkFeature 1 "a" 0 0); None;
      None; None ] in
  Z.of_nat (length (rows_B pair_0_150 100)) <= 3 /\
  sort_features_B pair_0_150 3 2 100 20 = Ok flat /\
  exists top,
    flat = top ++ replicate ((Z.to_nat 3 - length (rows_B pair_0_150 100))
                             * Z.to_nat 2) None /\
    length top = (length (rows_B pair_0_150 100) * Z.to_nat 2)%nat.
Proof.
  intros flat.
  assert (Z.of_nat (length (rows_B pair_0_150 100)) <= 3) as H1 by decide_it.
  assert (sort_features_B pair_0_150 3 2 100 20 = Ok flat) as H2
    by (vm_compute; reflexivity).
  split; [exact H1|]. split; [exact H2|].
  exact (missing_rows_are_empty pair_0_150 3 2 100 20 flat H1 H2).
Defined.

(** [clusters_independent_of_order] at [chain_200_150_90] and its reverse. *)
Lemma clusters_independent_of_order_witness :
  chain_200_150_90 ≡ₚ reverse chain_200_150_90 /\ 0 <= 100 /\
  Forall2 (fun row row' => row ≡ₚ row')
          (rows_B chain_200_150_90 100)
          (rows_B (reverse chain_200_150_90) 100).
Proof.
  assert (chain_200_150_90 ≡ₚ reverse chain_200_150_90) as H1 by decide_it.
  assert (0 <= 100) as H2 by lia.
  split; [exact H1|]. split; [exact H2|].
  exact (clusters_independent_of_order chain_200_150_90
           (reverse chain_200_150_90) 100 H1 H2).
Defined.

(** [reading_order_independent_of_order] at [times_1] and its reverse. *)
Lemma reading_order_independent_of_order_witness :
  times_1 ≡ₚ reverse times_1 /\ 0 <= 100 /\
  Forall2 (fun row row' => row ≡ₚ row')
          (rows_A times_1 100) (rows_A (reverse times_1) 100) /\
  x <$> sort_features_A times_1 100
  = x <$> sort_features_A (reverse times_1) 100.
Proof.
  assert (times_1 ≡ₚ reverse times_1) as H1
    by (symmetry; apply reverse_Permutation).
  assert (0 <= 100) as H2 by lia.
  split; [exact H1|]. split; [exact H2|].
  exact (reading_order_independent_of_order times_1 (reverse times_1) 100
           H1 H2).
Defined.
